(** * Environment wrappers of lux_ai/lux_gym/wrappers.py

    A shallow embedding of the gym wrappers [PadEnv], [LoggingEnv], [VecEnv]
    and [DictEnv], together with the parts of Python and NumPy they rely on:

    - a Python exception is the error side of [result];
    - a Python [dict] with string keys is an association list in insertion
      order: a comprehension visits the items in that order and an
      exception raised for one item aborts the remaining ones;
    - a NumPy array is its shape and its row-major buffer ([ndarray]); the
      element types are not distinguished, a boolean array that is put in a
      mapping of numeric arrays has entries 1 and 0;
    - an object that is mutated in place (a wrapper, its inner environment)
      is a state value threaded through the calls ([prog]).

    [PytorchEnv] only hands arrays over to PyTorch and back and is not
    modelled. *)

From stdpp Require Import base list strings.
From Stdlib Require Import ZArith.

Set Default Proof Using "Type".

(** ** Exceptions *)

Inductive exn : Set :=
| AssertionError
| KeyError
| IndexError
| ValueError.

Inductive result (X : Type) : Type :=
| Ok (x : X)
| Raise (e : exn).

Arguments Ok {X} x.
Arguments Raise {X} e.

#[global] Instance exn_eq_dec : EqDecision exn.
Proof. solve_decision. Defined.

#[global] Instance result_ret : MRet result := λ X x, Ok x.

#[global] Instance result_bind : MBind result :=
  λ X Y f m, match m with Ok x => f x | Raise e => Raise e end.

#[global] Instance result_fmap : FMap result :=
  λ X Y f m, match m with Ok x => Ok (f x) | Raise e => Raise e end.

Definition is_Ok {X} (m : result X) : Prop := ∃ x, m = Ok x.

(** [assert c] of Python. *)
Definition assert (c : bool) : result unit :=
  if c then Ok tt else Raise AssertionError.

(** A list comprehension whose body may raise. *)
Fixpoint list_mapM {X Y} (f : X → result Y) (l : list X) : result (list Y) :=
  match l with
  | [] => Ok []
  | x :: l' => y ← f x; ys ← list_mapM f l'; Ok (y :: ys)
  end.

(** ** Dictionaries *)

Abbreviation dict V := (list (string * V)) (only parsing).

Section dict.
Context {V : Type}.

(** [d.get(k)] *)
Fixpoint dict_get (k : string) (d : dict V) : option V :=
  match d with
  | [] => None
  | (k', v) :: d' => if decide (k = k') then Some v else dict_get k d'
  end.

(** [k in d.keys()] *)
Definition dict_mem (k : string) (d : dict V) : bool :=
  bool_decide (is_Some (dict_get k d)).

(** [d[k]] *)
Definition dict_getitem (k : string) (d : dict V) : result V :=
  match dict_get k d with
  | Some v => Ok v
  | None => Raise KeyError
  end.

(** [d[k] = v]: an existing key keeps its position, a new key goes last. *)
Fixpoint dict_set (k : string) (v : V) (d : dict V) : dict V :=
  match d with
  | [] => [(k, v)]
  | (k', v') :: d' =>
      if decide (k = k') then (k, v) :: d' else (k', v') :: dict_set k v d'
  end.

(** [d.update(other)] *)
Definition dict_update (d other : dict V) : dict V :=
  foldl (λ acc kv, dict_set kv.1 kv.2 acc) d other.

(** [d.keys()] *)
Definition dict_keys (d : dict V) : list string := d.*1.

End dict.

Section dict_comprehension.
Context {V W : Type}.

(** [{key: f(key, val) for key, val in d.items()}] where [f] may raise. *)
Fixpoint dict_mapM (f : string → V → result W) (d : dict V) : result (dict W) :=
  match d with
  | [] => Ok []
  | (k, v) :: d' => w ← f k v; ws ← dict_mapM f d'; Ok ((k, w) :: ws)
  end.

(** [{key: f(val) for key, val in d.items()}] *)
Definition dict_map (f : V → W) (d : dict V) : dict W :=
  prod_map id f <$> d.

End dict_comprehension.

(** ** Arrays *)

Record ndarray (A : Type) : Type := NDArray {
  shape : list nat;
  data : list A;
}.

Arguments NDArray {A} shape data.
Arguments shape {A} _.
Arguments data {A} _.

(** Number of elements of an array of shape [s]. *)
Definition numel (s : list nat) : nat := foldr Nat.mul 1 s.

(** The buffer has as many elements as the shape says. *)
Definition nd_wf {A} (a : ndarray A) : Prop := length (data a) = numel (shape a).

#[global] Instance nd_wf_dec {A} (a : ndarray A) : Decision (nd_wf a).
Proof. unfold nd_wf. apply _. Defined.

Section arrays.
Context {A : Type}.

(** The [n] consecutive blocks of [k] elements of a buffer: the sub-arrays
    along the leading axis of an array of shape [n :: s] with [numel s = k]. *)
Fixpoint chunks (n k : nat) (l : list A) : list (list A) :=
  match n with
  | 0 => []
  | S n' => take k l :: chunks n' k (drop k l)
  end.

(** [a[i]] *)
Definition nd_index (a : ndarray A) (i : nat) : result (ndarray A) :=
  match shape a with
  | [] => Raise IndexError
  | n :: s =>
      if decide (i < n)
      then Ok (NDArray s (take (numel s) (drop (i * numel s) (data a))))
      else Raise IndexError
  end.

(** [np.stack(arrs, axis=0)] *)
Definition np_stack (arrs : list (ndarray A)) : result (ndarray A) :=
  match arrs with
  | [] => Raise ValueError
  | a :: rest =>
      if decide (Forall (λ b, shape b = shape a) rest)
      then Ok (NDArray (length arrs :: shape a) (concat (data <$> arrs)))
      else Raise ValueError
  end.

(** [np.array(arrs)] on a list of arrays: the stack of equally shaped
    arrays; a ragged list is refused. The empty list gives an empty
    one-dimensional array. *)
Definition np_array (arrs : list (ndarray A)) : result (ndarray A) :=
  match arrs with
  | [] => Ok (NDArray [0] [])
  | _ => np_stack arrs
  end.

(** [np.full(s, v)] *)
Definition np_full (s : list nat) (v : A) : ndarray A :=
  NDArray s (replicate (numel s) v).

(** *** Constant padding

    [np.pad(a, pad_width, constant_values=zero)] with one [(before, after)]
    pair per axis. Along each axis the sub-arrays are padded recursively and
    [before], respectively [after], sub-arrays of the padded shape filled with
    [zero] are put in front of, respectively behind, them. *)

Definition pad_shape (s : list nat) (pw : list (nat * nat)) : list nat :=
  zip_with (λ n p, p.1 + n + p.2) s pw.

Fixpoint pad_data (zero : A) (s : list nat) (pw : list (nat * nat)) (l : list A) : list A :=
  match s, pw with
  | n :: s', (b, e) :: pw' =>
      let k := numel (pad_shape s' pw') in
      replicate (b * k) zero
        ++ concat (pad_data zero s' pw' <$> chunks n (numel s') l)
        ++ replicate (e * k) zero
  | _, _ => l
  end.

(** A negative width is refused, and so is a [pad_width] that has not one
    pair per axis of the array (it cannot be broadcast to the array's rank). *)
Definition np_pad (zero : A) (a : ndarray A) (pad_width : list (Z * Z)) : result (ndarray A) :=
  if decide (Forall (λ p, 0 ≤ p.1 ∧ 0 ≤ p.2)%Z pad_width) then
    if decide (length pad_width = length (shape a)) then
      let pw := prod_map Z.to_nat Z.to_nat <$> pad_width in
      Ok (NDArray (pad_shape (shape a) pw) (pad_data zero (shape a) pw (data a)))
    else Raise ValueError
  else Raise ValueError.

(** *** Slicing

    [take_data s bs l]: the buffer of [a[:bs0, :bs1, ...]] for a buffer [l]
    of shape [s]. *)
Fixpoint take_data (s : list nat) (bs : list nat) (l : list A) : list A :=
  match s, bs with
  | n :: s', m :: bs' => concat (take_data s' bs' <$> take m (chunks n (numel s') l))
  | _, _ => l
  end.

(** [a[..., :r, :c]]: the ellipsis stands for full slices of all axes but the
    last two; an array with fewer than two axes has too many indices. *)
Definition nd_crop (r c : nat) (a : ndarray A) : result (ndarray A) :=
  let s := shape a in
  if decide (2 ≤ length s) then
    let bs := take (length s - 2) s ++ [r; c] in
    Ok (NDArray (zip_with Nat.min bs s) (take_data s bs (data a)))
  else Raise IndexError.

(** [a.shape[-2:]] *)
Definition trailing2 (a : ndarray A) : list nat :=
  drop (length (shape a) - 2) (shape a).

(** *** Assignment through basic indices

    One selector per leading axis: a full slice [:], a slice [:m] or an
    integer index; the axes that have no selector are taken whole. *)
Inductive sel : Set :=
| All
| Upto (m : nat)
| At (i : nat).

Definition sel_hit (q : sel) (i : nat) : bool :=
  match q with
  | All => true
  | Upto m => bool_decide (i < m)
  | At j => bool_decide (i = j)
  end.

(** A slice bound is clipped to the axis, an integer index must be inside it. *)
Definition sel_ok (q : sel) (n : nat) : bool :=
  match q with
  | At j => bool_decide (j < n)
  | _ => true
  end.

Fixpoint assign_data (s : list nat) (qs : list sel) (v : A) (l : list A) : list A :=
  match s, qs with
  | n :: s', q :: qs' =>
      concat (imap (λ i chunk, if sel_hit q i then assign_data s' qs' v chunk else chunk)
                   (chunks n (numel s') l))
  | _, _ => replicate (length l) v
  end.

(** [a[qs] = v] *)
Definition nd_setitem (qs : list sel) (v : A) (a : ndarray A) : result (ndarray A) :=
  if decide (length qs ≤ length (shape a)) then
    if forallb (λ qn, sel_ok qn.1 qn.2) (zip qs (shape a))
    then Ok (NDArray (shape a) (assign_data (shape a) qs v (data a)))
    else Raise IndexError
  else Raise IndexError.

(** [a[i0][i1]...[ik]] as an element: one index per axis. *)
Fixpoint nd_item (a : ndarray A) (idx : list nat) : result A :=
  match idx with
  | [] =>
      match shape a, data a with
      | [], [v] => Ok v
      | _, _ => Raise IndexError
      end
  | i :: idx' => b ← nd_index a i; nd_item b idx'
  end.

(** Do the selectors [qs] select the position [idx]? *)
Definition sel_hits (qs : list sel) (idx : list nat) : bool :=
  forallb (λ qi, sel_hit qi.1 qi.2) (zip qs idx).

End arrays.

(** Elementwise image of an array. *)
Definition nd_map {A B} (f : A → B) (a : ndarray A) : ndarray B :=
  NDArray (shape a) (f <$> data a).

(** ** Scalars

    The element type of the numeric arrays is left open; the wrappers only
    need the constants 0 and 1, the conversion of a Python integer and the
    binary maximum of [np.maximum]. *)
Class Num (A : Type) : Type := {
  num_zero : A;
  num_one : A;
  num_of_Z : Z → A;
  num_max : A → A → A;
}.

#[global] Instance Z_num : Num Z := {|
  num_zero := 0%Z;
  num_one := 1%Z;
  num_of_Z := id;
  num_max := Z.max;
|}.

(** The numeric value of a boolean entry. *)
Definition num_of_bool `{Num A} (b : bool) : A :=
  if b then num_one else num_zero.

(** ** Stateful calls

    A method of a wrapper object reads and updates the object and may raise:
    the updates made before the exception stay. *)
Definition prog (S X : Type) : Type := S → S * result X.

#[global] Instance prog_ret {S} : MRet (prog S) := λ X x s, (s, Ok x).

#[global] Instance prog_bind {S} : MBind (prog S) :=
  λ X Y f m s,
    match m s with
    | (s', Ok x) => f x s'
    | (s', Raise e) => (s', Raise e)
    end.

Definition gets {S X} (f : S → X) : prog S X := λ s, (s, Ok (f s)).

Definition modify {S} (f : S → S) : prog S unit := λ s, (f s, Ok tt).

Definition lift {S X} (m : result X) : prog S X := λ s, (s, m).

(** ** Step results: the tuple [(obs, reward, done, info)] *)
Record env_out (A : Type) : Type := EnvOut {
  out_obs : dict (ndarray A);
  out_reward : ndarray A;
  out_done : bool;
  out_info : dict (ndarray A);
}.

Arguments EnvOut {A} _ _ _ _.
Arguments out_obs {A} _.
Arguments out_reward {A} _.
Arguments out_done {A} _.
Arguments out_info {A} _.

(** ** PadEnv: the board padder *)
Module PadEnv.
Section PadEnv.
Context {A : Type} `{!Num A} {Env Kw : Type}.

(** The inner environment: [unwrapped.board_dims], [reset] (with its keyword arguments) and
    [step(action)], each returning the environment after the call. *)
Variable board_dims : Env → nat * nat.
Variable env_reset : Kw → Env → Env * env_out A.
Variable env_step : dict (ndarray A) → Env → Env * env_out A.

Record self : Type := Self {
  env : Env;
  max_board_size : nat * nat;
  input_mask : ndarray bool;
}.

Definition set_env (e : Env) (s : self) : self :=
  Self e (max_board_size s) (input_mask s).

Definition set_input_mask (m : ndarray bool) (s : self) : self :=
  Self (env s) (max_board_size s) m.

(** A call into the inner environment. *)
Definition call_env {X} (f : Env → Env * X) : prog self X :=
  λ s, let '(e, x) := f (env s) in (set_env e s, Ok x).

(** A call of a method that reads the wrapper. *)
Definition method {X} (f : self → result X) : prog self X :=
  λ s, (s, f s).

Definition orig_board_dims (s : self) : nat * nat := board_dims (env s).

(** lines 11-16; the observation space (line 14) is not modelled. *)
Definition __init__ (e : Env) (max_board_size : nat * nat) : result self :=
  let s := Self e max_board_size
             (np_full [1; max_board_size.1; max_board_size.2] false) in
  m ← nd_setitem [All; Upto (orig_board_dims s).1; Upto (orig_board_dims s).2]
        true (input_mask s);
  Ok (set_input_mask m s).

(** lines 53-60 *)
Definition pad_width (s : self) : list (Z * Z) :=
  [ (0, 0); (0, 0);
    (0, Z.of_nat (max_board_size s).1 - Z.of_nat (orig_board_dims s).1);
    (0, Z.of_nat (max_board_size s).2 - Z.of_nat (orig_board_dims s).2) ]%Z.

(** The same widths as naturals, for a board that fits. *)
Definition end_pads (s : self) : list (nat * nat) :=
  [ (0, 0); (0, 0);
    (0, (max_board_size s).1 - (orig_board_dims s).1);
    (0, (max_board_size s).2 - (orig_board_dims s).2) ].

(** lines 18-19 *)
Definition _pad (s : self) (arr : ndarray A) : result (ndarray A) :=
  np_pad num_zero arr (pad_width s).

(** lines 21-24 *)
Definition observation (s : self) (observation : dict (ndarray A)) : result (dict (ndarray A)) :=
  dict_mapM (λ _ val, _pad s val) observation.

(** lines 26-34; the mask is stored with its entries as numbers. *)
Definition info (s : self) (info : dict (ndarray A)) : result (dict (ndarray A)) :=
  info ← dict_mapM
    (λ _ val,
       if decide (trailing2 val = [(orig_board_dims s).1; (orig_board_dims s).2])
       then _pad s val else Ok val)
    info;
  _ ← assert (negb (dict_mem "input_mask" info));
  Ok (dict_set "input_mask" (nd_map num_of_bool (input_mask s)) info).

(** lines 36-40 *)
Definition reset (kwargs : Kw) : prog self (env_out A) :=
  out ← call_env (env_reset kwargs);
  m ← gets input_mask;
  m ← lift (nd_setitem [All] false m);
  _ ← modify (set_input_mask m);
  dims ← gets orig_board_dims;
  m ← lift (nd_setitem [All; At dims.1; Upto dims.2] true m);
  _ ← modify (set_input_mask m);
  obs ← method (λ s, observation s (out_obs out));
  inf ← method (λ s, info s (out_info out));
  mret (EnvOut obs (out_reward out) (out_done out) inf).

(** line 44: [val[..., :orig_board_dims[0], :orig_board_dims[1]]] *)
Definition crop (s : self) (val : ndarray A) : result (ndarray A) :=
  nd_crop (orig_board_dims s).1 (orig_board_dims s).2 val.

(** lines 42-47 *)
Definition step (action : dict (ndarray A)) : prog self (env_out A) :=
  action ← method (λ s, dict_mapM (λ _ val, crop s val) action);
  out ← call_env (env_step action);
  obs ← method (λ s, observation s (out_obs out));
  inf ← method (λ s, info s (out_info out));
  mret (EnvOut obs (out_reward out) (out_done out) inf).

(** What holds of the mask of every padder built by [__init__] and then
    driven through [reset] and [step]. *)
Definition mask_ok (s : self) : Prop :=
  shape (input_mask s) = [1; (max_board_size s).1; (max_board_size s).2]
  ∧ nd_wf (input_mask s).

End PadEnv.
End PadEnv.

(** ** LoggingEnv: the telemetry collector *)
Module LoggingEnv.
Section LoggingEnv.
Context {A : Type} `{!Num A} {Env Kw City : Type}.

(** The game state the inner environment exposes. *)
Record Unit : Type := MkUnit {
  is_worker : bool;
  is_cart : bool;
}.

Record Player : Type := MkPlayer {
  city_tile_count : Z;
  cities : list City;
  units : list Unit;
  research_points : Z;
}.

Record Game : Type := MkGame {
  turn : Z;
  players : list Player;
}.

Variable game_state : Env → Game.
Variable env_reset : Kw → Env → Env * env_out A.
Variable env_step : dict (ndarray A) → Env → Env * env_out A.

Record self : Type := Self {
  env : Env;
  peak_city_tile_count : ndarray A;
}.

Definition set_env (e : Env) (s : self) : self :=
  Self e (peak_city_tile_count s).

Definition set_peak_city_tile_count (p : ndarray A) (s : self) : self :=
  Self (env s) p.

Definition call_env {X} (f : Env → Env * X) : prog self X :=
  λ s, let '(e, x) := f (env s) in (set_env e s, Ok x).

(** lines 64-66 *)
Definition __init__ (e : Env) : self :=
  Self e (NDArray [2] [num_one; num_one]).

(** A value of the [logs] dictionary: a list of Python integers or an array. *)
Inductive log_val : Type :=
| Ints (l : list Z)
| Arr (a : ndarray A).

(** [np.array(val)] *)
Definition np_array_val (v : log_val) : ndarray A :=
  match v with
  | Ints l => NDArray [length l] (num_of_Z <$> l)
  | Arr a => a
  end.

(** [sum(b for ...)] of booleans *)
Definition sum_bools (bs : list bool) : Z :=
  foldr (λ b n, (Z.b2z b + n)%Z) 0%Z bs.

(** [np.maximum(a, b)] of one-dimensional operands: one of length 1 is
    broadcast to the other; other shapes are refused. *)
Definition np_maximum (a b : ndarray A) : result (ndarray A) :=
  match shape a, shape b, data a, data b with
  | [n], [m], xs, ys =>
      if decide (n = m) then Ok (NDArray [n] (zip_with num_max xs ys))
      else match xs, ys with
           | [x], _ => Ok (NDArray [m] (num_max x <$> ys))
           | _, [y] => Ok (NDArray [n] ((λ x, num_max x y) <$> xs))
           | _, _ => Raise ValueError
           end
  | _, _, _, _ => Raise ValueError
  end.

(** lines 73-80 *)
Definition logs (game_state : Game) : dict log_val :=
  [ ("step", Ints [turn game_state]);
    ("city_tiles", Ints (city_tile_count <$> players game_state));
    ("separate_cities", Ints ((λ p, Z.of_nat (length (cities p))) <$> players game_state));
    ("workers", Ints ((λ p, sum_bools (is_worker <$> units p)) <$> players game_state));
    ("carts", Ints ((λ p, sum_bools (is_cart <$> units p)) <$> players game_state));
    ("research_points", Ints (research_points <$> players game_state)) ].

(** line 83: [info.update({f"logging_{key}": np.array(val) ...})] *)
Definition merge_logs (info : dict (ndarray A)) (logs : dict log_val) : dict (ndarray A) :=
  dict_update info (prod_map (String.append "logging_") np_array_val <$> logs).

(** lines 70-84 *)
Definition info (info : dict (ndarray A)) : prog self (dict (ndarray A)) :=
  game_state ← gets (λ s, game_state (env s));
  let logs := logs game_state in
  peak ← gets peak_city_tile_count;
  n ← lift (dict_getitem "n_city_tiles" logs);
  peak ← lift (np_maximum peak (np_array_val n));
  _ ← modify (set_peak_city_tile_count peak);
  let logs := dict_set "peak_city_tiles" (Arr peak) logs in
  mret (merge_logs info logs).

(** lines 86-89 *)
Definition reset (kwargs : Kw) : prog self (env_out A) :=
  out ← call_env (env_reset kwargs);
  peak ← gets peak_city_tile_count;
  peak ← lift (nd_setitem [All] num_one peak);
  _ ← modify (set_peak_city_tile_count peak);
  inf ← info (out_info out);
  mret (EnvOut (out_obs out) (out_reward out) (out_done out) inf).

(** lines 91-93 *)
Definition step (action : dict (ndarray A)) : prog self (env_out A) :=
  out ← call_env (env_step action);
  inf ← info (out_info out);
  mret (EnvOut (out_obs out) (out_reward out) (out_done out) inf).

End LoggingEnv.
End LoggingEnv.

(** ** VecEnv: the vectorizer *)
Module VecEnv.
Section VecEnv.
Context {A : Type} {Env Kw : Type}.

(** One instance: [reset] and [step] return the instance after the call.
    The instances are separate objects: a call on one leaves the others and
    the results they returned earlier as they are. *)
Variable env_reset : Kw → Env → Env * env_out A.
Variable env_step : dict (ndarray A) → Env → Env * env_out A.

(** A cached result is the empty tuple [()] ([None]) or a step result. *)
Record self : Type := Self {
  envs : list Env;
  last_outs : list (option (env_out A));
}.

(** The stacked step result. *)
Record vec_out : Type := VecOut {
  obs_stacked : dict (ndarray A);
  reward_stacked : ndarray A;
  done_stacked : ndarray bool;
  info_stacked : dict (ndarray A);
}.

(** lines 97-99 *)
Definition __init__ (envs : list Env) : self :=
  Self envs ((λ _, None) <$> seq 0 (length envs)).

(** [{key: np.stack([d[key] for d in ds], axis=0) for key in ds[0].keys()}] *)
Definition stack_dicts (first : dict (ndarray A)) (ds : list (dict (ndarray A)))
  : result (dict (ndarray A)) :=
  dict_mapM (λ key _, arrs ← list_mapM (dict_getitem key) ds; np_stack arrs) first.

(** lines 101-112. [zip( *env_outs)] yields nothing when the list is empty
    or one of the tuples is, and then the four names cannot be bound. *)
Definition _vectorize_env_outs (env_outs : list (option (env_out A))) : result vec_out :=
  match mapM id env_outs with
  | Some (first :: rest) =>
      let outs := first :: rest in
      obs ← stack_dicts (out_obs first) (out_obs <$> outs);
      reward ← np_array (out_reward <$> outs);
      let done := NDArray [length outs] (out_done <$> outs) in
      inf ← stack_dicts (out_info first) (out_info <$> outs);
      Ok (VecOut obs reward done inf)
  | _ => Raise ValueError
  end.

(** The body of the loop of lines 120-124 for index [i]. *)
Definition reset_if_done (kwargs : Kw) (i : nat) : prog self unit :=
  λ s,
    match last_outs s !! i with
    | Some (Some out) =>
        if out_done out then
          match envs s !! i with
          | Some e =>
              let '(e', out') := env_reset kwargs e in
              (Self (<[i:=e']> (envs s)) (<[i:=Some out']> (last_outs s)), Ok tt)
          | None => (s, Ok tt)
          end
        else (s, Ok tt)
    | _ => (s, Raise IndexError)
    end.

(** [for i in is: body(i)] *)
Fixpoint for_each (body : nat → prog self unit) (l : list nat) : prog self unit :=
  match l with
  | [] => mret tt
  | i :: l' => _ ← body i; for_each body l'
  end.

(** lines 114-125 *)
Definition reset (force : bool) (kwargs : Kw) : prog self vec_out :=
  if force then
    _ ← modify (λ s,
          let r := env_reset kwargs <$> envs s in
          Self (r.*1) (Some <$> r.*2));
    outs ← gets last_outs;
    lift (_vectorize_env_outs outs)
  else
    n ← gets (λ s, length (envs s));
    _ ← for_each (reset_if_done kwargs) (seq 0 n);
    outs ← gets last_outs;
    lift (_vectorize_env_outs outs).

(** The action of instance [i]: [{key: val[i] for key, val in action.items()}] *)
Definition slice_action (action : dict (ndarray A)) (i : nat) : result (dict (ndarray A)) :=
  dict_mapM (λ _ val, nd_index val i) action.

(** lines 127-132 *)
Definition step (action : dict (ndarray A)) : prog self vec_out :=
  n ← gets (λ s, length (envs s));
  actions ← lift (list_mapM (slice_action action) (seq 0 n));
  _ ← modify (λ s,
        let r := zip_with (λ e a, env_step a e) (envs s) actions in
        Self (r.*1) (Some <$> r.*2));
  outs ← gets last_outs;
  lift (_vectorize_env_outs outs).

(** *** What the statements below speak about *)

(** Stepping instance [i] alone on its slice of the batched action. *)
Definition step_alone (action : dict (ndarray A)) (i : nat) (e : Env)
  : result (Env * env_out A) :=
  a ← slice_action action i; Ok (env_step a e).

(** Every instance stepped alone, one after the other. *)
Definition steps_alone (action : dict (ndarray A)) (es : list Env)
  : result (list (Env * env_out A)) :=
  list_mapM (λ ie, step_alone action ie.1 ie.2) (zip (seq 0 (length es)) es).

(** The instance and its cached result after a selective reset: reset
    when the cached [done] flag is set, otherwise as they were. *)
Definition reset_entry (kwargs : Kw) (e : Env) (cached : env_out A) : Env * env_out A :=
  if out_done cached then env_reset kwargs e else (e, cached).

(** All arrays of a step result are well-formed. *)
Definition wf_out (out : env_out A) : Prop :=
  Forall (λ ka, nd_wf ka.2) (out_obs out)
  ∧ nd_wf (out_reward out)
  ∧ Forall (λ ka, nd_wf ka.2) (out_info out).

(** Two mappings have the same keys. *)
Definition same_keys (d1 d2 : dict (ndarray A)) : Prop :=
  Forall (λ k, is_Some (dict_get k d2)) (dict_keys d1)
  ∧ Forall (λ k, is_Some (dict_get k d1)) (dict_keys d2).

(** The arrays two mappings hold under a common key have the same shape. *)
Definition same_shapes (d1 d2 : dict (ndarray A)) : Prop :=
  Forall (λ ka, ∀ a2, dict_get ka.1 d2 = Some a2 → shape a2 = shape ka.2) d1.

(** Two step results can be stacked: same keys and same shapes. *)
Definition stackable (o1 o2 : env_out A) : Prop :=
  same_keys (out_obs o1) (out_obs o2)
  ∧ same_shapes (out_obs o1) (out_obs o2)
  ∧ shape (out_reward o2) = shape (out_reward o1)
  ∧ same_keys (out_info o1) (out_info o2)
  ∧ same_shapes (out_info o1) (out_info o2).

(** Entry [i] of a stacked mapping is the mapping [d]: each array of [d] is
    entry [i] of the stacked array under its key. *)
Definition dict_entry_of (stacked : dict (ndarray A)) (i : nat) (d : dict (ndarray A)) : Prop :=
  ∀ k a, dict_get k d = Some a →
    ∃ st, dict_get k stacked = Some st ∧ nd_index st i = Ok a.

(** Entry [i] of every component of the stacked result [v] is [out]. *)
Definition entry_of (v : vec_out) (i : nat) (out : env_out A) : Prop :=
  dict_entry_of (obs_stacked v) i (out_obs out)
  ∧ nd_index (reward_stacked v) i = Ok (out_reward out)
  ∧ nd_index (done_stacked v) i = Ok (NDArray [] [out_done out])
  ∧ dict_entry_of (info_stacked v) i (out_info out).

(** Every array of a stacked mapping has, at entry [i], the array the
    mapping [d] holds under the same key. *)
Definition dict_slices_of (stacked : dict (ndarray A)) (i : nat) (d : dict (ndarray A)) : Prop :=
  ∀ k st, dict_get k stacked = Some st →
    ∃ a, dict_get k d = Some a ∧ nd_index st i = Ok a.

(** What the stacked result [v] holds at entry [i] is taken from [out]. *)
Definition contribution_of (v : vec_out) (i : nat) (out : env_out A) : Prop :=
  dict_slices_of (obs_stacked v) i (out_obs out)
  ∧ nd_index (reward_stacked v) i = Ok (out_reward out)
  ∧ nd_index (done_stacked v) i = Ok (NDArray [] [out_done out])
  ∧ dict_slices_of (info_stacked v) i (out_info out).

(** Every array of the stacked result has leading dimension [n]. *)
Definition leading_dim (v : vec_out) (n : nat) : Prop :=
  Forall (λ ka, ∃ sh, shape ka.2 = n :: sh) (obs_stacked v)
  ∧ (∃ sh, shape (reward_stacked v) = n :: sh)
  ∧ shape (done_stacked v) = [n]
  ∧ Forall (λ ka, ∃ sh, shape ka.2 = n :: sh) (info_stacked v).

End VecEnv.
End VecEnv.

(** ** DictEnv: the result flattener *)
Module DictEnv.
Section DictEnv.
Context {Obs Reward Done Info : Type} {Env Kw Action : Type}.

Variable env_reset : Kw → Env → Env * result (Obs * Reward * Done * dict Info).
Variable env_step : Action → Env → Env * result (Obs * Reward * Done * dict Info).

(** The values of the flattened mapping. *)
Inductive value : Type :=
| VObs (obs : Obs)
| VReward (reward : Reward)
| VDone (done : Done)
| VInfo (v : Info).

(** lines 184-195 *)
Definition _dict_env_out (env_out : Obs * Reward * Done * dict Info) : result (dict value) :=
  let '(obs, reward, done, info) := env_out in
  _ ← assert (negb (dict_mem "obs" info));
  _ ← assert (negb (dict_mem "reward" info));
  _ ← assert (negb (dict_mem "done" info));
  Ok ([("obs", VObs obs); ("reward", VReward reward); ("done", VDone done)]
        ++ dict_map VInfo info).

(** lines 197-198 *)
Definition reset (kwargs : Kw) : prog Env (dict value) :=
  λ e, let '(e', r) := env_reset kwargs e in (e', r ≫= _dict_env_out).

(** lines 200-201 *)
Definition step (action : Action) : prog Env (dict value) :=
  λ e, let '(e', r) := env_step action e in (e', r ≫= _dict_env_out).

End DictEnv.
End DictEnv.

(** ** Sample environments

    Small inner environments on which the statements below are run. *)
Module Sample.

(** An environment whose state is its board size; [reset] takes the board
    size of the next episode as its keyword argument. *)
Definition board_obs (dims : nat * nat) : dict (ndarray Z) :=
  [("tiles", NDArray [1; 1; dims.1; dims.2] (replicate (dims.1 * dims.2) 7%Z))].

Definition board_reset (kwargs : nat * nat) (e : nat * nat) : (nat * nat) * env_out Z :=
  (kwargs, EnvOut (board_obs kwargs) (NDArray [] [0%Z]) false []).

Definition board_step (action : dict (ndarray Z)) (e : nat * nat) : (nat * nat) * env_out Z :=
  (e, EnvOut (board_obs e) (NDArray [] [1%Z]) false []).

(** A padder for boards up to 32 x 32 around a 12 x 12 board, as
    [PadEnv.__init__] builds it. *)
Definition padder : @PadEnv.self (nat * nat) :=
  PadEnv.Self (12, 12) (32, 32)
    (NDArray [1; 32; 32]
       (concat (replicate 12 (replicate 12 true ++ replicate 20 false))
          ++ replicate (20 * 32) false)).

(** A padder for boards up to 3 x 4 around a 2 x 2 board. *)
Definition small_padder : @PadEnv.self (nat * nat) :=
  PadEnv.Self (2, 2) (3, 4)
    (NDArray [1; 3; 4]
       [true; true; false; false; true; true; false; false;
        false; false; false; false]).

(** A 2 x 2 board with one leading pair of axes. *)
Definition small_board : ndarray Z := NDArray [1; 1; 2; 2] [1; 2; 3; 4]%Z.

(** An instance for the vectorizer: its state counts the steps of the
    episode, a step echoes the action as observation and the episode is
    done after the third step. *)
Definition counter_out (obs : dict (ndarray Z)) (t : nat) : env_out Z :=
  EnvOut obs (NDArray [] [Z.of_nat t]) (bool_decide (3 ≤ t))
    [("turn", NDArray [1] [Z.of_nat t])].

Definition counter_reset (kwargs : unit) (e : nat) : nat * env_out Z :=
  (0, counter_out [("move", NDArray [2] [0; 0]%Z)] 0).

Definition counter_step (action : dict (ndarray Z)) (e : nat) : nat * env_out Z :=
  (S e, counter_out action (S e)).

(** The actions of two instances in one batch. *)
Definition batched_action : dict (ndarray Z) :=
  [("move", NDArray [2; 2] [1; 2; 3; 4]%Z)].

(** Two instances with cached results: the first one is done. *)
Definition vec : @VecEnv.self Z nat :=
  VecEnv.Self [3; 1]
    [ Some (counter_out [("move", NDArray [2] [5; 6]%Z)] 3);
      Some (counter_out [("move", NDArray [2] [7; 8]%Z)] 1) ].

(** A game with two players. *)
Definition game : @LoggingEnv.Game unit :=
  LoggingEnv.MkGame 7
    [ LoggingEnv.MkPlayer 1 [tt] [LoggingEnv.MkUnit true false] 3;
      LoggingEnv.MkPlayer 2 [tt; tt] [] 0 ]%Z.

Definition logger : @LoggingEnv.self Z unit := LoggingEnv.__init__ tt.

End Sample.

(** Stackability and well-formedness of concrete results. *)
Ltac solve_stackable :=
  unfold VecEnv.stackable, VecEnv.same_keys, VecEnv.same_shapes, VecEnv.wf_out,
    nd_wf, is_Some;
  vm_compute;
  repeat match goal with
         | |- Forall _ _ => constructor
         | |- _ ∧ _ => split
         | |- ∃ _, _ => eexists
         | |- ∀ _, _ => intros ? [= <-]
         | |- _ = _ => reflexivity
         end.

(** * Properties *)

(** ** Exceptions and comprehensions *)

Lemma is_Ok_Ok {X} (x : X) : is_Ok (Ok x).
Proof. by exists x. Qed.

Lemma not_is_Ok_Raise {X} (e : exn) : ¬ is_Ok (Raise e : result X).
Proof. by intros [x ?]. Qed.

Lemma list_mapM_Ok {X Y} (f : X → result Y) l k :
  list_mapM f l = Ok k ↔ Forall2 (λ x y, f x = Ok y) l k.
Proof.
  revert k. induction l as [|x l IH]; intros k; simpl.
  - split; [by intros [= <-]; constructor|by intros ->%Forall2_nil_inv_l].
  - destruct (f x) as [y|e] eqn:Hx; simpl.
    + destruct (list_mapM f l) as [ys|e] eqn:Hl; simpl.
      * split.
        -- intros [= <-]. constructor; [done|by apply IH].
        -- intros (y' & k' & Hy & Hk & ->)%Forall2_cons_inv_l.
           apply IH in Hk. congruence.
      * split; [done|].
        intros (y' & k' & Hy & Hk & ->)%Forall2_cons_inv_l. by apply IH in Hk.
    + split; [done|].
      intros (y' & k' & Hy & Hk & ->)%Forall2_cons_inv_l. congruence.
Qed.

Lemma prog_bind_eq {S X Y} (m : prog S X) (f : X → prog S Y) (s : S) :
  (m ≫= f) s
  = match m s with
    | (s', Ok x) => f x s'
    | (s', Raise e) => (s', Raise e)
    end.
Proof. done. Qed.

(** ** Dictionaries *)
Section dict_facts.
Context {V W : Type}.
Implicit Types (d : dict V) (k : string).


Lemma dict_mem_false k d : dict_mem k d = false ↔ dict_get k d = None.
Proof.
  unfold dict_mem. rewrite bool_decide_eq_false. symmetry. apply eq_None_not_Some.
Qed.

Lemma dict_get_elem_of k d v : dict_get k d = Some v → (k, v) ∈ d.
Proof.
  induction d as [|[k' v'] d IH]; simpl; [done|].
  case_decide as Hk; [intros [= ->]; subst; left|intros ?; right; auto].
Qed.

Lemma dict_get_set k k0 (v : V) d :
  dict_get k (dict_set k0 v d) = if decide (k = k0) then Some v else dict_get k d.
Proof.
  induction d as [|[k' v'] d IH]; simpl.
  - by repeat case_decide.
  - destruct (decide (k0 = k')) as [->|Hne]; simpl.
    + by repeat case_decide.
    + rewrite IH. repeat case_decide; congruence.
Qed.

Lemma dict_get_app k d1 d2 :
  dict_get k (d1 ++ d2) = match dict_get k d1 with Some v => Some v | None => dict_get k d2 end.
Proof.
  induction d1 as [|[k' v'] d1 IH]; simpl; [done|]. by case_decide.
Qed.

Lemma dict_get_map (f : V → W) k d :
  dict_get k (dict_map f d) = f <$> dict_get k d.
Proof.
  induction d as [|[k' v'] d IH]; simpl; [done|]. by case_decide.
Qed.

Lemma dict_mapM_Ok (f : string → V → result W) d (d' : dict W) :
  dict_mapM f d = Ok d' ↔
  Forall2 (λ kv kw, kv.1 = kw.1 ∧ f kv.1 kv.2 = Ok kw.2) d d'.
Proof.
  revert d'. induction d as [|[k v] d IH]; intros d'; simpl.
  - split; [by intros [= <-]; constructor|by intros ->%Forall2_nil_inv_l].
  - destruct (f k v) as [w|e] eqn:Hx; simpl.
    + destruct (dict_mapM f d) as [ws|e] eqn:Hl; simpl.
      * split.
        -- intros [= <-]. constructor; [done|by apply IH].
        -- intros ([k' w'] & ws' & [Hk Hy] & Hks & ->)%Forall2_cons_inv_l.
           apply IH in Hks. simpl in *. congruence.
      * split; [done|].
        intros (y' & k' & Hy & Hk & ->)%Forall2_cons_inv_l. by apply IH in Hk.
    + split; [done|].
      intros ([k' w'] & ws' & [Hk Hy] & Hks & ->)%Forall2_cons_inv_l.
      simpl in *. congruence.
Qed.

Lemma dict_get_mapM (f : string → V → result W) d (d' : dict W) k :
  dict_mapM f d = Ok d' →
  match dict_get k d with
  | Some v => ∃ w, f k v = Ok w ∧ dict_get k d' = Some w
  | None => dict_get k d' = None
  end.
Proof.
  rewrite dict_mapM_Ok. induction 1 as [|[k1 v] [k2 w] d d' [Hk Hf] _ IH]; simpl; [done|].
  simpl in *; subst k2. case_decide; [subst; eauto|done].
Qed.

Lemma dict_get_mapM_inv (f : string → V → result W) d (d' : dict W) k w :
  dict_mapM f d = Ok d' → dict_get k d' = Some w →
  ∃ v, dict_get k d = Some v ∧ f k v = Ok w.
Proof.
  intros Hd Hw. pose proof (dict_get_mapM f d d' k Hd) as Hk.
  destruct (dict_get k d) as [v|]; [|congruence].
  destruct Hk as (w' & Hf & Hw'). exists v. split; [done|congruence].
Qed.

Lemma dict_mapM_is_Ok (f : string → V → result W) d :
  (∀ k v, (k, v) ∈ d → is_Ok (f k v)) → is_Ok (dict_mapM f d).
Proof.
  induction d as [|[k v] d IH]; intros Hf; simpl; [apply is_Ok_Ok|].
  destruct (Hf k v) as [w ->]; [left|]. simpl.
  destruct IH as [ws ->]; [intros ???; apply Hf; by right|]. apply is_Ok_Ok.
Qed.

Lemma dict_mapM_Raise (f : string → V → result W) d e :
  dict_mapM f d = Raise e → ∃ k v, (k, v) ∈ d ∧ f k v = Raise e.
Proof.
  induction d as [|[k v] d IH]; simpl; [done|].
  destruct (f k v) as [w|e'] eqn:Hf; simpl.
  - destruct (dict_mapM f d) as [ws|e'] eqn:Hd; simpl; [done|].
    intros [= ->]. destruct IH as (k' & v' & Hin & Hf'); [done|].
    exists k', v'. split; [by right|done].
  - intros [= ->]. exists k, v. split; [left|done].
Qed.

Lemma dict_mapM_elem_Raise (f : string → V → result W) d k v e :
  (k, v) ∈ d → f k v = Raise e → ¬ is_Ok (dict_mapM f d).
Proof.
  intros Hin Hf [d' Hd']. apply dict_mapM_Ok in Hd'.
  apply list_elem_of_lookup in Hin as [i Hi].
  destruct (Forall2_lookup_l _ _ _ _ _ Hd' Hi) as ([k' w] & _ & _ & Hw).
  simpl in Hw. congruence.
Qed.


End dict_facts.

(** ** Buffers as sequences of blocks *)
Section chunks_facts.
Context {A : Type}.
Implicit Types (l : list A) (ls : list (list A)).

Lemma length_chunks n k l : length (chunks n k l) = n.
Proof. revert l. induction n as [|n IH]; intros l; simpl; [done|]. by rewrite IH. Qed.

Lemma lookup_chunks n k l i :
  i < n → chunks n k l !! i = Some (take k (drop (i * k) l)).
Proof.
  revert l i. induction n as [|n IH]; intros l i Hi; [lia|].
  destruct i as [|i]; simpl; [done|].
  rewrite IH by lia. by rewrite drop_drop.
Qed.

Lemma length_concat_uniform k ls :
  Forall (λ x, length x = k) ls → length (concat ls) = length ls * k.
Proof.
  induction 1 as [|x ls Hx _ IH]; simpl; [done|].
  rewrite length_app, IH, Hx. lia.
Qed.

Lemma chunks_uniform n k l :
  n * k ≤ length l → Forall (λ x, length x = k) (chunks n k l).
Proof.
  revert l. induction n as [|n IH]; intros l Hl; simpl; constructor.
  - rewrite length_take. lia.
  - apply IH. rewrite length_drop. lia.
Qed.

Lemma concat_chunks n k l : length l = n * k → concat (chunks n k l) = l.
Proof.
  revert l. induction n as [|n IH]; intros l Hl; simpl.
  - by destruct l.
  - rewrite IH by (rewrite length_drop; lia). apply take_drop.
Qed.

Lemma chunks_concat_app k ls m rest :
  Forall (λ x, length x = k) ls →
  chunks (length ls + m) k (concat ls ++ rest) = ls ++ chunks m k rest.
Proof.
  induction 1 as [|x ls Hx _ IH]; simpl; [done|].
  rewrite <-(assoc_L (++)), take_app_length', drop_app_length' by done.
  by rewrite IH.
Qed.

Lemma chunks_concat k ls :
  Forall (λ x, length x = k) ls → chunks (length ls) k (concat ls) = ls.
Proof.
  intros Hls. pose proof (chunks_concat_app k ls 0 [] Hls) as H.
  by rewrite Nat.add_0_r, !app_nil_r in H.
Qed.

(** Block [i] of a buffer made of equally long blocks. *)
Lemma take_drop_concat k ls i x :
  Forall (λ x, length x = k) ls → ls !! i = Some x →
  take k (drop (i * k) (concat ls)) = x.
Proof.
  intros Hls Hi.
  assert (i < length ls) as Hlt by (by eapply lookup_lt_Some).
  pose proof (lookup_chunks (length ls) k (concat ls) i Hlt) as H.
  rewrite chunks_concat in H by done. congruence.
Qed.

End chunks_facts.

(** ** Indexing, padding, slicing and assignment *)
Section array_facts.
Context {A : Type}.
Implicit Types (l : list A) (a : ndarray A) (s : list nat).

Lemma length_block k l i n :
  length l = n * k → i < n → length (take k (drop (i * k) l)) = k.
Proof. intros Hl Hi. rewrite length_take, length_drop. nia. Qed.

Lemma nd_index_Ok a n s i :
  shape a = n :: s → i < n →
  nd_index a i = Ok (NDArray s (take (numel s) (drop (i * numel s) (data a)))).
Proof. intros Hs Hi. unfold nd_index. rewrite Hs. by rewrite decide_True. Qed.


Lemma replicate_mul n k (v : A) :
  replicate (n * k) v = concat (replicate n (replicate k v)).
Proof.
  induction n as [|n IH]; simpl; [done|]. by rewrite replicate_add, IH.
Qed.

Lemma nd_index_full n s (v : A) i :
  i < n → nd_index (np_full (n :: s) v) i = Ok (np_full s v).
Proof.
  intros Hi. erewrite nd_index_Ok by done. unfold np_full; simpl.
  do 2 f_equal. rewrite replicate_mul.
  apply take_drop_concat.
  - apply Forall_replicate, length_replicate.
  - by apply lookup_replicate_2.
Qed.

(** *** Padding *)

Lemma length_pad_data zero s pw l :
  length pw = length s → length l = numel s →
  length (pad_data zero s pw l) = numel (pad_shape s pw).
Proof.
  revert pw l. induction s as [|n s IH]; intros [|[b e] pw] l Hpw Hl; try done.
  simpl in *. rewrite !length_app, !length_replicate.
  erewrite length_concat_uniform; last first.
  { apply Forall_fmap. eapply Forall_impl; [apply (chunks_uniform n (numel s)); lia|].
    intros x Hx; simpl. apply IH; [lia|done]. }
  rewrite length_fmap, length_chunks. unfold pad_shape. lia.
Qed.

Lemma pad_data_blocks zero n s e pw l :
  length pw = length s → length l = n * numel s →
  pad_data zero (n :: s) ((0, e) :: pw) l =
    concat ((pad_data zero s pw <$> chunks n (numel s) l)
              ++ replicate e (replicate (numel (pad_shape s pw)) zero))
  ∧ Forall (λ x, length x = numel (pad_shape s pw))
      ((pad_data zero s pw <$> chunks n (numel s) l)
         ++ replicate e (replicate (numel (pad_shape s pw)) zero)).
Proof.
  intros Hpw Hl. split.
  - simpl. by rewrite concat_app, <-replicate_mul.
  - apply Forall_app; split.
    + apply Forall_fmap. eapply Forall_impl; [apply (chunks_uniform n (numel s)); lia|].
      intros x Hx; simpl. by apply length_pad_data.
    + apply Forall_replicate, length_replicate.
Qed.

(** Slicing an end-padded buffer back to its shape gives the buffer. *)
Lemma take_pad_data zero s pw l :
  length pw = length s → Forall (λ p, p.1 = 0) pw → length l = numel s →
  take_data (pad_shape s pw) s (pad_data zero s pw l) = l.
Proof.
  revert pw l. induction s as [|n s IH]; intros [|[b e] pw] l Hpw Hb Hl; try done.
  apply Forall_cons in Hb as [Hb0 Hb]; simpl in Hb0; subst b.
  simpl in Hpw, Hl.
  destruct (pad_data_blocks zero n s e pw l) as [Heq Hlen]; [lia|done|].
  rewrite Heq. change (pad_shape (n :: s) ((0, e) :: pw))
    with ((0 + n + e) :: pad_shape s pw).
  cbn [take_data]. apply Forall_app in Hlen as [Hlen _].
  rewrite concat_app.
  replace (0 + n + e) with (length (pad_data zero s pw <$> chunks n (numel s) l) + e)
    by (rewrite length_fmap, length_chunks; lia).
  rewrite chunks_concat_app by done.
  rewrite take_app_length' by (by rewrite length_fmap, length_chunks).
  rewrite <-list_fmap_compose.
  rewrite <-(concat_chunks n (numel s) l) at 2 by done.
  f_equal. rewrite <-(list_fmap_id (chunks n (numel s) l)) at 2.
  apply Forall_fmap_ext_1.
  eapply Forall_impl; [apply (chunks_uniform n (numel s)); lia|].
  intros x Hx; simpl. apply IH; [lia|done..].
Qed.

(** Entry [i] along the leading axis of an end-padded array: the padded
    entry [i] of the array, or a block of the fill value. *)
Lemma nd_index_padded zero n s e pw l i :
  length pw = length s → length l = n * numel s → i < n + e →
  nd_index (NDArray (pad_shape (n :: s) ((0, e) :: pw))
                    (pad_data zero (n :: s) ((0, e) :: pw) l)) i
  = Ok (if decide (i < n)
        then NDArray (pad_shape s pw)
               (pad_data zero s pw (take (numel s) (drop (i * numel s) l)))
        else np_full (pad_shape s pw) zero).
Proof.
  intros Hpw Hl Hi.
  destruct (pad_data_blocks zero n s e pw l) as [Heq Hlen]; [done..|].
  erewrite nd_index_Ok; [|reflexivity|simpl; lia].
  f_equal. rewrite Heq. case_decide as Hin.
  - f_equal. apply take_drop_concat; [done|].
    rewrite lookup_app_l by (by rewrite length_fmap, length_chunks).
    by rewrite list_lookup_fmap, lookup_chunks.
  - unfold np_full. f_equal. apply take_drop_concat; [done|].
    rewrite lookup_app_r by (rewrite length_fmap, length_chunks; lia).
    apply lookup_replicate_2. rewrite length_fmap, length_chunks. lia.
Qed.

(** *** Assignment *)

Lemma Forall_imap_uniform {B} (P : list A → Prop) (Q : B → Prop)
    (f : nat → list A → B) (ls : list (list A)) :
  Forall P ls → (∀ i x, P x → Q (f i x)) → Forall Q (imap f ls).
Proof.
  intros Hls Hf. apply Forall_lookup. intros i y.
  rewrite list_lookup_imap_Some. intros (x & Hx & ->).
  apply Hf. by eapply (Forall_lookup_1 _ _ _ _ Hls).
Qed.

Lemma length_assign_data s qs (v : A) l :
  length l = numel s → length (assign_data s qs v l) = length l.
Proof.
  revert qs l. induction s as [|n s IH]; intros qs l Hl.
  { destruct qs; simpl; by rewrite length_replicate. }
  destruct qs as [|q qs]; simpl; [by rewrite length_replicate|].
  simpl in Hl. erewrite length_concat_uniform; last first.
  { eapply Forall_imap_uniform; [apply (chunks_uniform n (numel s)); lia|].
    intros i x Hx; simpl. destruct (sel_hit q i); [|exact Hx].
    rewrite IH; done. }
  rewrite length_imap, length_chunks. lia.
Qed.

Lemma nd_index_assign n s q qs (v : A) l i :
  length l = n * numel s → i < n →
  nd_index (NDArray (n :: s) (assign_data (n :: s) (q :: qs) v l)) i
  = Ok (NDArray s
         (if sel_hit q i
          then assign_data s qs v (take (numel s) (drop (i * numel s) l))
          else take (numel s) (drop (i * numel s) l))).
Proof.
  intros Hl Hi. erewrite nd_index_Ok by done. do 2 f_equal. simpl.
  apply take_drop_concat.
  - eapply Forall_imap_uniform; [apply (chunks_uniform n (numel s)); lia|].
    intros j x Hx; simpl. destruct (sel_hit q j); [|exact Hx].
    by rewrite length_assign_data.
  - by rewrite list_lookup_imap, lookup_chunks.
Qed.

Lemma block_full n s (v : A) i :
  i < n →
  take (numel s) (drop (i * numel s) (replicate (numel (n :: s)) v))
  = replicate (numel s) v.
Proof.
  intros Hi. pose proof (nd_index_full n s v i Hi) as H.
  erewrite nd_index_Ok in H by done. by injection H.
Qed.

Lemma nd_item_full s (v : A) idx :
  Forall2 lt idx s → nd_item (np_full s v) idx = Ok v.
Proof.
  revert idx. induction s as [|n s IH]; intros idx Hidx.
  - by apply Forall2_nil_inv_r in Hidx as ->.
  - apply Forall2_cons_inv_r in Hidx as (i & idx' & Hi & Hidx & ->).
    cbn [nd_item]. rewrite nd_index_full by done. by apply IH.
Qed.

(** Reading a constant array after an assignment through [qs]. *)
Lemma nd_item_assign s qs (v w : A) idx :
  Forall2 lt idx s → length qs ≤ length s →
  nd_item (NDArray s (assign_data s qs v (replicate (numel s) w))) idx
  = Ok (if sel_hits qs idx then v else w).
Proof.
  revert qs idx. induction s as [|n s IH]; intros qs idx Hidx Hqs.
  - apply Forall2_nil_inv_r in Hidx as ->. by destruct qs.
  - apply Forall2_cons_inv_r in Hidx as (i & idx' & Hi & Hidx & ->).
    destruct qs as [|q qs].
    { change (assign_data (n :: s) [] v (replicate (numel (n :: s)) w))
        with (replicate (length (replicate (numel (n :: s)) w)) v).
      rewrite length_replicate. by apply (nd_item_full (n :: s)), Forall2_cons. }
    cbn [nd_item]. rewrite nd_index_assign; [|by rewrite length_replicate|done].
    rewrite block_full by done. simpl in Hqs.
    unfold sel_hits; cbn [zip zip_with forallb fst snd].
    destruct (sel_hit q i); cbn [mbind result_bind andb].
    + apply IH; [done|lia].
    + by apply (nd_item_full s).
Qed.

(** [a[:] = v] makes a well-formed array constant. *)
Lemma nd_setitem_All (v : A) a :
  nd_wf a → shape a ≠ [] → nd_setitem [All] v a = Ok (np_full (shape a) v).
Proof.
  destruct a as [[|n s] l]; [done|]. unfold nd_wf, nd_setitem, np_full; simpl.
  intros Hl _. do 2 f_equal.
  rewrite replicate_mul. f_equal. apply list_eq. intros i.
  rewrite list_lookup_imap.
  destruct (decide (i < n)) as [Hi|Hi].
  - rewrite lookup_chunks, lookup_replicate_2 by done. simpl. f_equal.
    assert (length (take (numel s) (drop (i * numel s) l)) = numel s) as Hk
      by (by eapply length_block).
    destruct s; simpl in *; by rewrite Hk.
  - rewrite (lookup_ge_None_2 (chunks _ _ _)) by (rewrite length_chunks; lia).
    symmetry. apply lookup_replicate_None. lia.
Qed.

(** Reading an end-padded array: inside the original extent the original
    element, outside the fill value. *)
Lemma nd_item_padded zero s pw l idx :
  length pw = length s → Forall (λ p, p.1 = 0) pw → length l = numel s →
  Forall2 lt idx (pad_shape s pw) →
  nd_item (NDArray (pad_shape s pw) (pad_data zero s pw l)) idx
  = if decide (Forall2 lt idx s) then nd_item (NDArray s l) idx else Ok zero.
Proof.
  revert pw l idx.
  induction s as [|n s IH]; intros [|[b e] pw] l idx Hpw Hb Hl Hidx; try done.
  { apply Forall2_nil_inv_r in Hidx as ->. by rewrite decide_True by constructor. }
  apply Forall_cons in Hb as [Hb0 Hb]; simpl in Hb0; subst b.
  change (pad_shape (n :: s) ((0, e) :: pw)) with ((0 + n + e) :: pad_shape s pw) in Hidx.
  apply Forall2_cons_inv_r in Hidx as (i & idx' & Hi & Hidx & ->).
  simpl in Hpw, Hl. cbn [nd_item].
  rewrite nd_index_padded by (done || lia).
  destruct (decide (i < n)) as [Hin|Hin]; cbn [mbind result_bind].
  - rewrite IH; [|lia|done|by eapply length_block|done].
    erewrite (nd_index_Ok (NDArray (n :: s) l)) by done. cbn [mbind result_bind].
    destruct (decide (Forall2 lt idx' s)) as [Hd|Hd].
    + by rewrite decide_True by (by constructor).
    + rewrite decide_False; [done|]. by intros [_ ?]%Forall2_cons.
  - rewrite nd_item_full by done.
    rewrite decide_False; [done|]. by intros [? _]%Forall2_cons.
Qed.

(** *** Stacking *)

Lemma np_stack_Ok (arrs : list (ndarray A)) a :
  arrs !! 0 = Some a → Forall (λ b, shape b = shape a) arrs →
  np_stack arrs = Ok (NDArray (length arrs :: shape a) (concat (data <$> arrs))).
Proof.
  destruct arrs as [|a' rest]; [done|]. intros [= ->] Hsh.
  apply Forall_cons in Hsh as [_ Hsh]. unfold np_stack. by rewrite decide_True.
Qed.

Lemma np_stack_inv (arrs : list (ndarray A)) st :
  np_stack arrs = Ok st →
  ∃ a, arrs !! 0 = Some a ∧ Forall (λ b, shape b = shape a) arrs
       ∧ st = NDArray (length arrs :: shape a) (concat (data <$> arrs)).
Proof.
  destruct arrs as [|a rest]; [done|]. unfold np_stack.
  case_decide as Hsh; [|done]. intros [= <-]. exists a. split_and!; try done.
  by constructor.
Qed.

(** Entry [i] of a stack of well-formed arrays is the [i]-th array. *)
Lemma nd_index_stack (arrs : list (ndarray A)) st i a :
  np_stack arrs = Ok st → Forall nd_wf arrs → arrs !! i = Some a →
  shape st = length arrs :: shape a ∧ nd_index st i = Ok a.
Proof.
  intros (a0 & H0 & Hsh & ->)%np_stack_inv Hwf Hi.
  assert (shape a = shape a0) as Ha by (by eapply (Forall_lookup_1 _ _ _ _ Hsh)).
  split; [simpl; congruence|].
  erewrite nd_index_Ok; [|reflexivity|by eapply lookup_lt_Some].
  destruct a as [sa da]; simpl in *; subst sa. do 2 f_equal.
  apply take_drop_concat.
  - apply Forall_fmap. eapply Forall_impl.
    + apply Forall_and; split; [exact Hwf|exact Hsh].
    + intros b [Hb1 Hb2]; simpl. unfold nd_wf in Hb1. congruence.
  - by rewrite list_lookup_fmap, Hi.
Qed.

End array_facts.

(** ** The board padder *)
Section PadEnv_facts.
Context {A : Type} `{!Num A} {Env Kw : Type}.
Variable board_dims : Env → nat * nat.
Variable env_reset : Kw → Env → Env * env_out A.
Variable env_step : dict (ndarray A) → Env → Env * env_out A.
Implicit Types (s : @PadEnv.self Env) (arr : ndarray A).

Local Abbreviation orig_board_dims := (PadEnv.orig_board_dims board_dims).
Local Abbreviation end_pads := (PadEnv.end_pads board_dims).
Local Abbreviation _pad := (PadEnv._pad board_dims).
Local Abbreviation crop := (PadEnv.crop board_dims).
Local Abbreviation max_board_size := PadEnv.max_board_size.

Lemma _pad_Ok s arr :
  (orig_board_dims s).1 ≤ (max_board_size s).1 →
  (orig_board_dims s).2 ≤ (max_board_size s).2 →
  length (shape arr) = 4 →
  _pad s arr = Ok (NDArray (pad_shape (shape arr) (end_pads s))
                           (pad_data num_zero (shape arr) (end_pads s) (data arr))).
Proof.
  intros Hr Hc Hnd. unfold PadEnv._pad, np_pad, PadEnv.pad_width.
  rewrite decide_True by (repeat constructor; simpl; lia).
  rewrite decide_True by done.
  unfold PadEnv.end_pads. cbn [fmap list_fmap prod_map fst snd].
  change (Z.to_nat 0) with 0.
  by rewrite <-!Nat2Z.inj_sub, !Nat2Z.id by done.
Qed.

(** The padder refuses an array that has not four axes. *)
Lemma _pad_not_4d s arr : length (shape arr) ≠ 4 → _pad s arr = Raise ValueError.
Proof.
  intros Hnd. unfold PadEnv._pad, np_pad, PadEnv.pad_width.
  case_decide; [|done]. by rewrite decide_False.
Qed.

Lemma end_pads_shape s a b :
  (orig_board_dims s).1 ≤ (max_board_size s).1 →
  (orig_board_dims s).2 ≤ (max_board_size s).2 →
  pad_shape [a; b; (orig_board_dims s).1; (orig_board_dims s).2] (end_pads s)
  = [a; b; (max_board_size s).1; (max_board_size s).2].
Proof. intros Hr Hc. unfold pad_shape, PadEnv.end_pads; simpl. repeat f_equal; lia. Qed.

(** C5. An array of shape [(a, b, rows, cols)], where [(rows, cols)] is the
    original board size, is padded to [(a, b, max_rows, max_cols)]; cropping
    the padded array as [step] crops actions gives the array back, so that
    padding again gives the same padded array; and the padded array holds
    the original entries on the original extent and 0 outside of it. *)
Theorem PadEnv_pad_crop_pad s arr a b :
  shape arr = [a; b; (orig_board_dims s).1; (orig_board_dims s).2] →
  nd_wf arr →
  (orig_board_dims s).1 ≤ (max_board_size s).1 →
  (orig_board_dims s).2 ≤ (max_board_size s).2 →
  ∃ p, _pad s arr = Ok p
    ∧ shape p = [a; b; (max_board_size s).1; (max_board_size s).2]
    ∧ crop s p = Ok arr
    ∧ (p1 ← _pad s arr; cropped ← crop s p1; _pad s cropped) = Ok p
    ∧ ∀ i j x y,
        i < a → j < b → x < (max_board_size s).1 → y < (max_board_size s).2 →
        nd_item p [i; j; x; y]
        = if decide (x < (orig_board_dims s).1 ∧ y < (orig_board_dims s).2)
          then nd_item arr [i; j; x; y] else Ok num_zero.
Proof.
  intros Hs Hwf Hr Hc. destruct arr as [sh l]. simpl in Hs; subst sh.
  unfold nd_wf in Hwf; cbn [shape data] in Hwf.
  pose proof (end_pads_shape s a b Hr Hc) as Hsh.
  assert (Forall (λ p : nat * nat, p.1 = 0) (end_pads s)) as Hb
    by (by repeat constructor).
  pose proof (_pad_Ok s
    (NDArray [a; b; (orig_board_dims s).1; (orig_board_dims s).2] l)
    Hr Hc eq_refl) as Hpad.
  cbn [shape data] in Hpad.
  set (pl := pad_data _ _ _ _) in Hpad.
  set (sh := [a; b; (orig_board_dims s).1; (orig_board_dims s).2]) in *.
  assert (crop s (NDArray (pad_shape sh (end_pads s)) pl) = Ok (NDArray sh l)) as Hcrop.
  { unfold PadEnv.crop, nd_crop. rewrite Hsh. cbn [shape data length].
    rewrite decide_True by lia. f_equal.
    cbn [Nat.sub take app zip_with]. f_equal.
    - repeat f_equal; lia.
    - rewrite <-Hsh. by apply take_pad_data. }
  eexists. split; [exact Hpad|]. split; [done|]. split; [exact Hcrop|].
  split; [by rewrite Hpad; cbn [mbind result_bind]; rewrite Hcrop|].
  intros i j x y Hi Hj Hx Hy. subst pl.
  rewrite nd_item_padded; [|done..|].
  - destruct (decide (x < (orig_board_dims s).1 ∧ y < (orig_board_dims s).2))
      as [[Hxr Hyc]|Hn].
    + rewrite decide_True; [done|]. subst sh. by repeat constructor.
    + rewrite decide_False; [done|]. subst sh. intros HF. apply Hn.
      apply Forall2_cons in HF as [_ HF]. apply Forall2_cons in HF as [_ HF].
      apply Forall2_cons in HF as [? HF]. by apply Forall2_cons in HF as [? _].
  - rewrite Hsh. by repeat constructor.
Qed.

Lemma _pad_Raise s arr e : _pad s arr = Raise e → e = ValueError.
Proof.
  unfold PadEnv._pad, np_pad. repeat case_decide; congruence.
Qed.

(** An entry whose trailing two dimensions are the original board size but
    which has not four axes makes [PadEnv.info] raise, as [observation]
    does on such an array. *)
Lemma PadEnv_info_not_4d s (inf : dict (ndarray A)) k v :
  (k, v) ∈ inf →
  trailing2 v = [(orig_board_dims s).1; (orig_board_dims s).2] →
  length (shape v) ≠ 4 →
  PadEnv.info board_dims s inf = Raise ValueError.
Proof.
  intros Hin Ht Hnd. unfold PadEnv.info.
  match goal with |- context [dict_mapM ?g inf] => set (f := g) end.
  destruct (dict_mapM f inf) as [inf'|e] eqn:Hinf'.
  - destruct (dict_mapM_elem_Raise f inf k v ValueError Hin).
    + unfold f. rewrite decide_True by done. by apply _pad_not_4d.
    + by exists inf'.
  - cbn [mbind result_bind]. f_equal.
    apply dict_mapM_Raise in Hinf' as (k' & v' & _ & Hf). unfold f in Hf.
    case_decide; [by eapply _pad_Raise|done].
Qed.

(** C7 (as amended). On an [info] mapping without the key ["input_mask"],
    in which every entry whose trailing two dimensions are the original
    board size has four axes, and for a board that fits the maximum size,
    [PadEnv.info] returns a mapping in which such an entry is padded by
    [_pad], exactly as [observation] pads it, to the maximum board size, and
    every other entry is the entry itself. *)
Theorem PadEnv_info_pads_board_entries s (inf : dict (ndarray A)) :
  (orig_board_dims s).1 ≤ (max_board_size s).1 →
  (orig_board_dims s).2 ≤ (max_board_size s).2 →
  dict_get "input_mask" inf = None →
  (∀ k v, (k, v) ∈ inf →
     trailing2 v = [(orig_board_dims s).1; (orig_board_dims s).2] →
     length (shape v) = 4) →
  ∃ out, PadEnv.info board_dims s inf = Ok out
    ∧ ∀ k v, dict_get k inf = Some v →
        if decide (trailing2 v = [(orig_board_dims s).1; (orig_board_dims s).2])
        then ∃ p, _pad s v = Ok p
               ∧ PadEnv.observation board_dims s [(k, v)] = Ok [(k, p)]
               ∧ shape p = take 2 (shape v)
                             ++ [(max_board_size s).1; (max_board_size s).2]
               ∧ dict_get k out = Some p
        else dict_get k out = Some v.
Proof.
  intros Hr Hc Hmask H4. unfold PadEnv.info.
  set (f := λ (_ : string) (val : ndarray A),
              if decide (trailing2 val = [(orig_board_dims s).1; (orig_board_dims s).2])
              then _pad s val else Ok val).
  destruct (dict_mapM_is_Ok f inf) as [inf' Hinf'].
  { intros k v Hin. unfold f. case_decide as Ht; [|apply is_Ok_Ok].
    rewrite _pad_Ok by eauto. apply is_Ok_Ok. }
  rewrite Hinf'. cbn [mbind result_bind].
  pose proof (dict_get_mapM f inf inf' "input_mask" Hinf') as Hm.
  rewrite Hmask in Hm. apply dict_mem_false in Hm. rewrite Hm.
  cbn [assert negb mbind result_bind].
  eexists; split; [done|]. intros k v Hk.
  assert (k ≠ "input_mask") as Hne by (intros ->; congruence).
  pose proof (dict_get_set k "input_mask"
    (nd_map num_of_bool (PadEnv.input_mask s)) inf') as Hset.
  rewrite decide_False in Hset by done. rewrite Hset. clear Hset.
  pose proof (dict_get_mapM f inf inf' k Hinf') as Hkv. rewrite Hk in Hkv.
  destruct Hkv as (w & Hf & Hw). unfold f in Hf.
  case_decide as Ht; [|congruence].
  exists w. split; [done|]. split.
  { unfold PadEnv.observation; simpl. by rewrite Hf. }
  split; [|done].
  assert (length (shape v) = 4) as Hnd by (eapply H4; [by eapply dict_get_elem_of|done]).
  rewrite _pad_Ok in Hf by done. injection Hf as <-. cbn [shape].
  unfold trailing2 in Ht. rewrite Hnd in Ht.
  destruct (shape v) as [|a [|b [|r [|c [|]]]]]; try done.
  simpl in Ht. injection Ht as -> ->.
  rewrite end_pads_shape by done. done.
Qed.


(** The constructor (lines 15-16) marks the valid region: the mask is 1
    exactly on the cells below the board dimensions. *)
Lemma PadEnv_init_input_mask (e : Env) (max : nat * nat) :
  ∃ s, PadEnv.__init__ board_dims e max = Ok s
    ∧ PadEnv.env s = e ∧ max_board_size s = max ∧ PadEnv.mask_ok s
    ∧ ∀ x y, x < max.1 → y < max.2 →
        nd_item (PadEnv.input_mask s) [0; x; y]
        = Ok (bool_decide (x < (board_dims e).1 ∧ y < (board_dims e).2)).
Proof.
  unfold PadEnv.__init__, nd_setitem, PadEnv.orig_board_dims, np_full.
  cbn [PadEnv.input_mask PadEnv.env shape data length zip zip_with forallb
       sel_ok fst snd andb].
  rewrite decide_True by lia. cbn [mbind result_bind]. eexists. split; [done|].
  split; [done|]. split; [done|]. split.
  - split; [done|]. unfold nd_wf; cbn [PadEnv.input_mask PadEnv.set_input_mask shape data].
    by rewrite length_assign_data; rewrite length_replicate.
  - intros x y Hx Hy. cbn [PadEnv.input_mask PadEnv.set_input_mask].
    rewrite nd_item_assign; [|by repeat constructor|simpl; lia].
    f_equal. unfold sel_hits; cbn [zip zip_with forallb sel_hit fst snd].
    rewrite andb_true_r, andb_true_l, <-bool_decide_and. by case_bool_decide.
Qed.

Lemma PadEnv_reset_state (kwargs : Kw) s :
  PadEnv.mask_ok s →
  let e := (env_reset kwargs (PadEnv.env s)).1 in
  let full := np_full [1; (max_board_size s).1; (max_board_size s).2] false in
  (PadEnv.reset board_dims env_reset kwargs s).1
  = PadEnv.Self e (max_board_size s)
      (if decide ((board_dims e).1 < (max_board_size s).1)
       then NDArray (shape full)
              (assign_data (shape full) [All; At (board_dims e).1; Upto (board_dims e).2]
                 true (data full))
       else full).
Proof.
  intros [Hsh Hwf] e full. subst e full.
  unfold PadEnv.reset, PadEnv.method, gets, lift, modify, PadEnv.orig_board_dims,
    PadEnv.set_input_mask.
  rewrite prog_bind_eq. unfold PadEnv.call_env at 1, PadEnv.set_env.
  destruct (env_reset kwargs (PadEnv.env s)) as [e out]. cbn [fst].
  do 2 rewrite prog_bind_eq. cbn [PadEnv.env PadEnv.max_board_size PadEnv.input_mask].
  rewrite nd_setitem_All by (done || by rewrite Hsh). rewrite Hsh.
  do 3 rewrite prog_bind_eq. cbn [PadEnv.env PadEnv.max_board_size PadEnv.input_mask].
  unfold nd_setitem.
  cbn [np_full shape data length zip zip_with forallb sel_ok fst snd andb].
  rewrite decide_True by lia.
  destruct (decide ((board_dims e).1 < (max_board_size s).1)) as [Hlt|Hge].
  - rewrite bool_decide_eq_true_2 by done. cbn [andb].
    do 2 rewrite prog_bind_eq. cbn [PadEnv.env PadEnv.max_board_size PadEnv.input_mask].
    destruct (PadEnv.observation _ _ _); [|done].
    rewrite prog_bind_eq.
    by destruct (PadEnv.info _ _ _).
  - by rewrite bool_decide_eq_false_2 by done.
Qed.

(** The shape of the mask is kept by [reset] and [step], so that the mask
    of a padder is well-formed throughout its life. *)
Lemma PadEnv_reset_mask_ok (kwargs : Kw) s :
  PadEnv.mask_ok s → PadEnv.mask_ok (PadEnv.reset board_dims env_reset kwargs s).1.
Proof.
  intros Hok. rewrite PadEnv_reset_state by done. unfold PadEnv.mask_ok.
  cbn [PadEnv.input_mask PadEnv.max_board_size].
  case_decide; (split; [done|]); unfold nd_wf; cbn [np_full shape data].
  - by rewrite length_assign_data; rewrite length_replicate.
  - by rewrite length_replicate.
Qed.

Lemma PadEnv_step_mask_ok action s :
  PadEnv.mask_ok s → PadEnv.mask_ok (PadEnv.step board_dims env_step action s).1.
Proof.
  intros Hok.
  assert (PadEnv.input_mask (PadEnv.step board_dims env_step action s).1
            = PadEnv.input_mask s
          ∧ max_board_size (PadEnv.step board_dims env_step action s).1
            = max_board_size s) as [Hm Hmax].
  { unfold PadEnv.step, PadEnv.method, PadEnv.call_env, PadEnv.set_env.
    rewrite prog_bind_eq. destruct (dict_mapM _ action); [|done].
    rewrite prog_bind_eq. destruct (env_step _ _) as [e out].
    rewrite prog_bind_eq. destruct (PadEnv.observation _ _ _); [|done].
    rewrite prog_bind_eq. by destruct (PadEnv.info _ _ _). }
  unfold PadEnv.mask_ok. by rewrite Hm, Hmax.
Qed.

(** C1 (what the code does). After every [reset] the mask is 1 exactly on
    the cells of the single row whose index is the number of rows of the
    board, in the columns below the number of columns of the board; it is 0
    on the whole valid region above that row. When the board has as many
    rows as the maximum, that row does not exist: the assignment of line 39
    raises and the mask is left all 0. *)
Theorem PadEnv_reset_mask_single_row (kwargs : Kw) s x y :
  PadEnv.mask_ok s →
  x < (max_board_size s).1 → y < (max_board_size s).2 →
  let s' := (PadEnv.reset board_dims env_reset kwargs s).1 in
  nd_item (PadEnv.input_mask s') [0; x; y]
  = Ok (bool_decide (x = (orig_board_dims s').1 ∧ y < (orig_board_dims s').2)).
Proof.
  intros Hok Hx Hy s'. subst s'. rewrite PadEnv_reset_state by done.
  unfold PadEnv.orig_board_dims. cbn [PadEnv.input_mask PadEnv.env].
  set (e := (env_reset kwargs (PadEnv.env s)).1).
  case_decide as Hr.
  - cbn [np_full shape data]. rewrite nd_item_assign; [|by repeat constructor|simpl; lia].
    f_equal. unfold sel_hits; cbn [zip zip_with forallb sel_hit fst snd].
    rewrite andb_true_r, andb_true_l, <-bool_decide_and. by case_bool_decide.
  - rewrite nd_item_full by (by repeat constructor).
    f_equal. symmetry. apply bool_decide_eq_false_2. lia.
Qed.

End PadEnv_facts.

(** ** The vectorizer *)
Section VecEnv_facts.
Context {A : Type} {Env Kw : Type}.
Variable env_reset : Kw → Env → Env * env_out A.
Variable env_step : dict (ndarray A) → Env → Env * env_out A.
Implicit Types (d first : dict (ndarray A)) (ds : list (dict (ndarray A))).
Implicit Types (out : env_out A) (outs : list (env_out A)).

Lemma take1_drop {X} (l : list X) i x : l !! i = Some x → take 1 (drop i l) = [x].
Proof.
  revert i. induction l as [|y l IH]; intros [|i] Hi; simplify_eq/=; [|by apply IH].
  by rewrite take_0.
Qed.


Lemma dict_keys_elem_of {V} (d : dict V) k v : dict_get k d = Some v → k ∈ dict_keys d.
Proof.
  intros Hin%dict_get_elem_of. unfold dict_keys.
  by apply (list_elem_of_fmap_2 fst) in Hin.
Qed.

(** One key of the stacked mapping. *)
Lemma stack_key_inv k ds w :
  (arrs ← list_mapM (dict_getitem k) ds; np_stack arrs) = Ok w →
  ∃ arrs, Forall2 (λ d a, dict_get k d = Some a) ds arrs ∧ np_stack arrs = Ok w.
Proof.
  destruct (list_mapM (dict_getitem k) ds) as [arrs|e] eqn:Hm; [|done].
  cbn [mbind result_bind]. intros Hst. exists arrs. split; [|done].
  apply list_mapM_Ok in Hm. eapply Forall2_impl; [exact Hm|].
  intros d a. unfold dict_getitem. by destruct (dict_get k d); intros [= ->].
Qed.

Lemma stack_key_Ok k first ds a0 :
  ds !! 0 = Some first → (k, a0) ∈ first →
  Forall (λ d, VecEnv.same_keys first d ∧ VecEnv.same_shapes first d) ds →
  is_Ok (arrs ← list_mapM (dict_getitem k) ds; np_stack arrs).
Proof.
  intros H0 Hin Hds.
  assert (∃ arrs, Forall2 (λ d a, dict_get k d = Some a ∧ shape a = shape a0) ds arrs)
    as [arrs Harrs].
  { clear H0. induction Hds as [|d ds [[Hk _] Hsh] _ [arrs IH]]; [by exists []|].
    destruct (proj1 (Forall_forall _ _) Hk k) as [a Ha].
    { by apply (list_elem_of_fmap_2 fst) in Hin. }
    exists (a :: arrs). constructor; [|done]. split; [done|].
    by apply (proj1 (Forall_forall _ _) Hsh _ Hin). }
  assert (list_mapM (dict_getitem k) ds = Ok arrs) as ->.
  { apply list_mapM_Ok. eapply Forall2_impl; [exact Harrs|].
    intros d a [Ha _]. unfold dict_getitem. by rewrite Ha. }
  cbn [mbind result_bind].
  destruct (Forall2_lookup_l _ _ _ 0 _ Harrs H0) as (a & Ha & _ & Hsa).
  rewrite (np_stack_Ok arrs a) by
    (try done; apply Forall_forall; intros b [i Hb]%list_elem_of_lookup;
     destruct (Forall2_lookup_r _ _ _ _ _ Harrs Hb) as (? & _ & _ & ?); congruence).
  apply is_Ok_Ok.
Qed.

Lemma stack_dicts_spec first ds :
  ds !! 0 = Some first →
  Forall (λ d, VecEnv.same_keys first d ∧ VecEnv.same_shapes first d) ds →
  Forall (λ d, Forall (λ ka, nd_wf ka.2) d) ds →
  ∃ st, VecEnv.stack_dicts first ds = Ok st
    ∧ Forall (λ ka, ∃ sh, shape ka.2 = length ds :: sh) st
    ∧ ∀ i d, ds !! i = Some d → VecEnv.dict_entry_of st i d.
Proof.
  intros H0 Hds Hwf. unfold VecEnv.stack_dicts.
  match goal with |- context [dict_mapM ?g first] => set (f := g) end.
  destruct (dict_mapM_is_Ok f first) as [st Hst].
  { intros k a0 Hin. by eapply stack_key_Ok. }
  exists st. split; [done|]. split.
  - apply dict_mapM_Ok in Hst. apply Forall_lookup. intros j [k w] Hj.
    destruct (Forall2_lookup_r _ _ _ _ _ Hst Hj) as ([k' a0] & _ & _ & Hf).
    simpl in Hf. apply stack_key_inv in Hf as (arrs & Harrs & Hw).
    apply np_stack_inv in Hw as (a & _ & _ & ->). simpl.
    exists (shape a). by rewrite (Forall2_length _ _ _ Harrs).
  - intros i d Hi k a Ha.
    assert (is_Some (dict_get k first)) as [a0 Ha0].
    { destruct (Forall_lookup_1 _ _ _ _ Hds Hi) as [[_ Hk] _].
      apply (proj1 (Forall_forall _ _) Hk). by eapply dict_keys_elem_of. }
    pose proof (dict_get_mapM f first st k Hst) as Hk. rewrite Ha0 in Hk.
    destruct Hk as (w & Hf & Hw). exists w. split; [done|].
    apply stack_key_inv in Hf as (arrs & Harrs & Hstack).
    destruct (Forall2_lookup_l _ _ _ _ _ Harrs Hi) as (a' & Ha' & Hka').
    assert (a' = a) as -> by congruence.
    eapply nd_index_stack; [done| |done].
    apply Forall_lookup. intros j b Hb.
    destruct (Forall2_lookup_r _ _ _ _ _ Harrs Hb) as (d' & Hd' & Hkb).
    pose proof (Forall_lookup_1 _ _ _ _ Hwf Hd') as Hwf'.
    by apply (proj1 (Forall_forall _ _) Hwf' _ (dict_get_elem_of _ _ _ Hkb)).
Qed.

(** Stacking the results of instances whose results are well-formed and
    stackable with the first one. *)
Lemma vectorize_spec first_out rest :
  let outs := first_out :: rest in
  Forall (VecEnv.stackable first_out) outs → Forall VecEnv.wf_out outs →
  ∃ v, VecEnv._vectorize_env_outs (Some <$> outs) = Ok v
    ∧ VecEnv.leading_dim v (length outs)
    ∧ ∀ i out, outs !! i = Some out → VecEnv.entry_of v i out.
Proof.
  intros outs Hst Hwf. unfold VecEnv._vectorize_env_outs.
  rewrite mapM_fmap_Some by done. subst outs. cbv iota beta.
  set (outs := first_out :: rest) in *.
  destruct (stack_dicts_spec (out_obs first_out) (out_obs <$> outs))
    as (obs & -> & Hobs_dim & Hobs); [done| | |].
  { apply Forall_fmap. eapply Forall_impl; [exact Hst|]. by intros o (? & ? & _). }
  { apply Forall_fmap. eapply Forall_impl; [exact Hwf|]. by intros o (? & _). }
  destruct (stack_dicts_spec (out_info first_out) (out_info <$> outs))
    as (inf & -> & Hinf_dim & Hinf); [done| | |].
  { apply Forall_fmap. eapply Forall_impl; [exact Hst|]. by intros o (_ & _ & _ & ? & ?). }
  { apply Forall_fmap. eapply Forall_impl; [exact Hwf|]. by intros o (_ & _ & ?). }
  assert (np_stack (out_reward <$> outs)
          = Ok (NDArray (length (out_reward <$> outs) :: shape (out_reward first_out))
                        (concat (data <$> (out_reward <$> outs))))) as Hrew.
  { apply np_stack_Ok; [done|]. apply Forall_fmap.
    eapply Forall_impl; [exact Hst|]. by intros o (_ & _ & ? & _). }
  cbn [mbind result_bind].
  assert (np_array (out_reward <$> outs) = np_stack (out_reward <$> outs)) as -> by done.
  rewrite Hrew. cbn [mbind result_bind].
  eexists. split; [done|]. rewrite !length_fmap in *. split.
  - split_and!; cbn [VecEnv.obs_stacked VecEnv.reward_stacked VecEnv.done_stacked
                     VecEnv.info_stacked shape]; eauto.
  - intros i out Hi.
    split_and!; cbn [VecEnv.obs_stacked VecEnv.reward_stacked VecEnv.done_stacked
                     VecEnv.info_stacked].
    + apply Hobs. by rewrite list_lookup_fmap, Hi.
    + eapply nd_index_stack; [exact Hrew| |by rewrite list_lookup_fmap, Hi].
      apply Forall_fmap. eapply Forall_impl; [exact Hwf|]. by intros o (_ & ? & _).
    + erewrite nd_index_Ok; [|done|by eapply lookup_lt_Some].
      do 2 f_equal. cbn [data numel foldr]. rewrite Nat.mul_1_r.
      apply take1_drop. by rewrite list_lookup_fmap, Hi.
    + apply Hinf. by rewrite list_lookup_fmap, Hi.
Qed.

Lemma steps_alone_inv action (es : list Env) k rs :
  list_mapM (λ ie, VecEnv.step_alone env_step action ie.1 ie.2)
            (zip (seq k (length es)) es) = Ok rs →
  ∃ actions, list_mapM (VecEnv.slice_action action) (seq k (length es)) = Ok actions
    ∧ rs = zip_with (λ e a, env_step a e) es actions.
Proof.
  unfold VecEnv.step_alone.
  revert k rs. induction es as [|e es IH]; intros k rs; simpl.
  - intros [= <-]. by exists [].
  - destruct (VecEnv.slice_action action k) as [a|err]; [|done].
    cbn [mbind result_bind].
    destruct (list_mapM _ (zip _ es)) as [rs'|err] eqn:Hrs; [|done].
    cbn [mbind result_bind]. intros [= <-].
    destruct (IH _ _ Hrs) as (actions & -> & ->). by exists (a :: actions).
Qed.

(** C4 (as amended). When there is at least one instance, every array of
    the batched action has an entry for every instance, so that each
    instance can be stepped alone on its slice, and the results can be
    stacked (identical key sets and, under each key, equal shapes),
    [VecEnv.step] steps every instance on its slice, caches the results and
    returns stacked arrays whose leading dimension is the number of
    instances and whose entry [i] is the result of instance [i]. *)
Theorem VecEnv_step_stacks (s : @VecEnv.self A Env) action rs first_out :
  VecEnv.steps_alone env_step action (VecEnv.envs s) = Ok rs →
  rs.*2 !! 0 = Some first_out →
  Forall (VecEnv.stackable first_out) rs.*2 →
  Forall VecEnv.wf_out rs.*2 →
  ∃ v, VecEnv.step env_step action s = (VecEnv.Self rs.*1 (Some <$> rs.*2), Ok v)
    ∧ VecEnv.leading_dim v (length (VecEnv.envs s))
    ∧ ∀ i r, rs !! i = Some r → VecEnv.entry_of v i r.2.
Proof.
  intros Halone H0 Hst Hwf.
  assert (length rs = length (VecEnv.envs s)) as Hlen.
  { apply list_mapM_Ok, Forall2_length in Halone.
    rewrite length_zip, length_seq in Halone. lia. }
  apply steps_alone_inv in Halone as (actions & Hact & Hrs).
  unfold VecEnv.step, gets, lift, modify.
  do 2 rewrite prog_bind_eq. rewrite Hact.
  do 2 rewrite prog_bind_eq. cbn [VecEnv.envs VecEnv.last_outs]. rewrite <-Hrs.
  destruct (rs.*2) as [|o rest] eqn:Hrs2; [done|]. injection H0 as ->.
  destruct (vectorize_spec first_out rest Hst Hwf) as (v & -> & Hdim & Hentry).
  exists v. split; [done|]. split.
  - replace (length (VecEnv.envs s)) with (length (first_out :: rest)); [done|].
    by rewrite <-Hrs2, length_fmap.
  - intros i r Hi. apply Hentry. by rewrite <-Hrs2, list_lookup_fmap, Hi.
Qed.

(** Whatever [_vectorize_env_outs] returns is made of the results it
    was given: they are step results, and entry [i] of every stacked array
    is taken from result [i]. *)
Lemma stack_dicts_slices first ds st :
  VecEnv.stack_dicts first ds = Ok st →
  Forall (λ d, Forall (λ ka, nd_wf ka.2) d) ds →
  ∀ i d, ds !! i = Some d → VecEnv.dict_slices_of st i d.
Proof.
  intros Hst Hwf i d Hi k w Hw. unfold VecEnv.stack_dicts in Hst.
  destruct (dict_get_mapM_inv _ _ _ _ _ Hst Hw) as (a0 & _ & Hf).
  apply stack_key_inv in Hf as (arrs & Harrs & Hstack).
  destruct (Forall2_lookup_l _ _ _ _ _ Harrs Hi) as (a & Ha & Hka).
  exists a. split; [done|].
  eapply nd_index_stack; [done| |done].
  apply Forall_lookup. intros j b Hb.
  destruct (Forall2_lookup_r _ _ _ _ _ Harrs Hb) as (d' & Hd' & Hkb).
  pose proof (Forall_lookup_1 _ _ _ _ Hwf Hd') as Hwf'.
  by apply (proj1 (Forall_forall _ _) Hwf' _ (dict_get_elem_of _ _ _ Hkb)).
Qed.

Lemma vectorize_inv (louts : list (option (env_out A))) v :
  VecEnv._vectorize_env_outs louts = Ok v →
  ∃ outs, louts = Some <$> outs
    ∧ (Forall VecEnv.wf_out outs →
       ∀ i out, outs !! i = Some out → VecEnv.contribution_of v i out).
Proof.
  unfold VecEnv._vectorize_env_outs.
  destruct (mapM id louts) as [[|first_out rest]|] eqn:Hm; [done| |done].
  set (outs := first_out :: rest) in *.
  destruct (VecEnv.stack_dicts _ (out_obs <$> outs)) as [obs|] eqn:Hobs; [|done].
  cbn [mbind result_bind].
  assert (np_array (out_reward <$> outs) = np_stack (out_reward <$> outs)) as -> by done.
  destruct (np_stack _) as [reward|] eqn:Hrew; [|done]. cbn [mbind result_bind].
  destruct (VecEnv.stack_dicts _ (out_info <$> outs)) as [inf|] eqn:Hinf; [|done].
  cbn [mbind result_bind]. intros [= <-]. exists outs. split.
  { symmetry. by eapply mapM_fmap_Some_inv; [exact Hm|]; intros ?? [= ->]. }
  intros Hwf i out Hi.
  split_and!; cbn [VecEnv.obs_stacked VecEnv.reward_stacked VecEnv.done_stacked
                   VecEnv.info_stacked].
  - eapply stack_dicts_slices; [exact Hobs| |by rewrite list_lookup_fmap, Hi].
    apply Forall_fmap. eapply Forall_impl; [exact Hwf|]. by intros o (? & _).
  - eapply nd_index_stack; [exact Hrew| |by rewrite list_lookup_fmap, Hi].
    apply Forall_fmap. eapply Forall_impl; [exact Hwf|]. by intros o (_ & ? & _).
  - erewrite nd_index_Ok; [|done|exact (lookup_lt_Some outs i out Hi)].
    do 2 f_equal. cbn [data numel foldr]. rewrite Nat.mul_1_r.
    apply take1_drop. change ((out_done <$> outs) !! i = Some (out_done out)).
    by rewrite list_lookup_fmap, Hi.
  - eapply stack_dicts_slices; [exact Hinf| |by rewrite list_lookup_fmap, Hi].
    apply Forall_fmap. eapply Forall_impl; [exact Hwf|]. by intros o (_ & _ & ?).
Qed.

(** The loop of lines 120-124, run from index [k] on: the instances from
    [k] on are reset or kept according to their cached [done] flag. *)
Lemma for_each_reset_if_done kwargs m :
  ∀ k (es : list Env) (cached : list (env_out A)),
    length cached = length es → k + m = length es →
    let rs := zip_with (VecEnv.reset_entry env_reset kwargs) (drop k es) (drop k cached) in
    VecEnv.for_each (VecEnv.reset_if_done env_reset kwargs) (seq k m)
      (VecEnv.Self es (Some <$> cached))
    = (VecEnv.Self (take k es ++ rs.*1) (Some <$> (take k cached ++ rs.*2)), Ok tt).
Proof.
  induction m as [|m IH]; intros k es cached Hlen Hk rs; subst rs.
  - rewrite !drop_ge, !take_ge, !app_nil_r by lia. done.
  - destruct (lookup_lt_is_Some_2 es k) as [e He]; [lia|].
    destruct (lookup_lt_is_Some_2 cached k) as [out Hout]; [lia|].
    rewrite (drop_S es e k He), (drop_S cached out k Hout).
    cbn [seq VecEnv.for_each zip_with fmap list_fmap fst snd].
    rewrite prog_bind_eq. unfold VecEnv.reset_if_done at 1.
    cbn [VecEnv.last_outs VecEnv.envs]. rewrite list_lookup_fmap, Hout, He.
    cbn [fmap option_fmap option_map]. unfold VecEnv.reset_entry at 1 3.
    destruct (out_done out).
    + destruct (env_reset kwargs e) as [e' out'] eqn:Hreset.
      rewrite <-list_fmap_insert, IH by (rewrite ?length_insert; lia).
      rewrite !drop_insert_lt by lia.
      rewrite (take_S_r (<[k:=e']> es) k e'), (take_S_r (<[k:=out']> cached) k out')
        by (apply list_lookup_insert_eq; lia).
      rewrite !take_insert_ge by lia. cbn [fst snd].
      by rewrite <-!(assoc_L (++)).
    + rewrite IH by lia.
      rewrite (take_S_r es k e He), (take_S_r cached k out Hout). cbn [fst snd].
      by rewrite <-!(assoc_L (++)).
Qed.

(** C3. On a vectorizer that has a cached result for every instance,
    [reset] without [force] resets the instances whose cached [done] flag is
    set and no other one: an instance whose flag is not set, and its cached
    result, stay as they are. What the call returns is the stack of the
    results now cached; in every stacked result it returns, entry [i] of
    every component is taken from the cached result of instance [i] when
    that instance was not reset. The call does return when the results now
    cached can be stacked, and then every array of such a cached result is
    entry [i] of the stacked array under its key. *)
Theorem VecEnv_reset_selective (s : @VecEnv.self A Env) kwargs cached :
  VecEnv.last_outs s = Some <$> cached →
  length cached = length (VecEnv.envs s) →
  let rs := zip_with (VecEnv.reset_entry env_reset kwargs) (VecEnv.envs s) cached in
  let r := VecEnv.reset env_reset false kwargs s in
  Forall VecEnv.wf_out rs.*2 →
  r.1 = VecEnv.Self rs.*1 (Some <$> rs.*2)
  ∧ (∀ i e out, VecEnv.envs s !! i = Some e → cached !! i = Some out →
       rs !! i = Some (if out_done out then env_reset kwargs e else (e, out)))
  ∧ (∀ v, r.2 = Ok v →
       ∀ i out, cached !! i = Some out → out_done out = false →
         VecEnv.contribution_of v i out)
  ∧ (∀ first_out, rs.*2 !! 0 = Some first_out →
       Forall (VecEnv.stackable first_out) rs.*2 →
       ∃ v, r.2 = Ok v
         ∧ ∀ i out, cached !! i = Some out → out_done out = false →
             VecEnv.entry_of v i out).
Proof.
  intros Hlast Hlen rs r Hwf. subst rs r. destruct s as [es louts].
  cbn [VecEnv.last_outs VecEnv.envs] in *. subst louts.
  set (rs := zip_with (VecEnv.reset_entry env_reset kwargs) es cached) in *.
  set (r := VecEnv.reset env_reset false kwargs _).
  assert (r = (VecEnv.Self rs.*1 (Some <$> rs.*2),
               VecEnv._vectorize_env_outs (Some <$> rs.*2))) as Hr.
  { subst r. unfold VecEnv.reset, gets, lift. do 2 rewrite prog_bind_eq.
    cbn [VecEnv.envs]. rewrite (for_each_reset_if_done kwargs _ 0) by done.
    rewrite !drop_0, !take_0. cbn [app]. fold rs.
    by rewrite prog_bind_eq. }
  assert (∀ i e out, es !! i = Some e → cached !! i = Some out →
            rs !! i = Some (if out_done out then env_reset kwargs e else (e, out)))
    as Hrs.
  { intros i e out He Hout. subst rs.
    rewrite lookup_zip_with, He; cbn; rewrite Hout; cbn.
    unfold VecEnv.reset_entry. by destruct (out_done out). }
  assert (∀ i out, cached !! i = Some out → out_done out = false →
            rs.*2 !! i = Some out) as Hkept.
  { intros i out Hout Hdone.
    destruct (lookup_lt_is_Some_2 es i) as [e He];
      [rewrite <-Hlen; by eapply lookup_lt_Some|].
    by rewrite list_lookup_fmap, (Hrs i e out He Hout), Hdone. }
  rewrite Hr. cbn [fst snd]. split; [done|]. split; [done|]. split.
  - intros v Hv i out Hout Hdone.
    apply vectorize_inv in Hv as (outs & Houts & Hcontrib).
    apply (inj (fmap Some)) in Houts. subst outs. by eapply Hcontrib, Hkept.
  - intros first_out H0 Hst.
    destruct (rs.*2) as [|o rest] eqn:Hrs2; [done|]. injection H0 as ->.
    destruct (vectorize_spec first_out rest Hst Hwf) as (v & -> & _ & Hentry).
    exists v. split; [done|]. intros i out Hout Hdone. by eapply Hentry, Hkept.
Qed.

(** C10. On a freshly constructed vectorizer [reset] without [force]
    raises: with at least one instance, reading the [done] flag of the first
    cached result, the empty tuple, is out of range; with no instance, there
    is nothing to unpack in [_vectorize_env_outs]. The vectorizer is left as
    it was. *)
Theorem VecEnv_fresh_reset_fails (es : list Env) kwargs :
  VecEnv.reset env_reset false kwargs (@VecEnv.__init__ A Env es)
  = (VecEnv.__init__ es,
     Raise (match es with [] => ValueError | _ :: _ => IndexError end)).
Proof. by destruct es. Qed.

End VecEnv_facts.

(** ** The telemetry collector *)
Section LoggingEnv_facts.
Context {A : Type} `{!Num A} {Env Kw City : Type}.
Variable game_state : Env → @LoggingEnv.Game City.
Variable env_reset : Kw → Env → Env * env_out A.
Variable env_step : dict (ndarray A) → Env → Env * env_out A.
Implicit Types (s : @LoggingEnv.self A Env) (inf : dict (ndarray A)).

(** The dictionary of lines 73-80 has no key ["n_city_tiles"]. *)
Lemma logs_no_n_city_tiles (g : @LoggingEnv.Game City) :
  dict_getitem "n_city_tiles" (@LoggingEnv.logs A City g) = Raise KeyError.
Proof. done. Qed.

(** C2 (what the code does). [LoggingEnv.info] raises [KeyError] on every
    input, at the lookup of line 81, and leaves the running maximum as it
    was; so do [step] and [reset], which call it: no call of the collector
    completes. *)
Theorem LoggingEnv_info_raises_KeyError :
  (∀ inf s, LoggingEnv.info game_state inf s = (s, Raise KeyError))
  ∧ (∀ action s, (LoggingEnv.step game_state env_step action s).2 = Raise KeyError)
  ∧ (∀ kwargs s, ¬ is_Ok (LoggingEnv.reset game_state env_reset kwargs s).2).
Proof.
  assert (∀ inf s, LoggingEnv.info game_state inf s = (s, Raise KeyError)) as Hinfo.
  { intros inf s. unfold LoggingEnv.info, gets, lift.
    do 3 rewrite prog_bind_eq. by rewrite logs_no_n_city_tiles. }
  split; [done|]. split.
  - intros action s. unfold LoggingEnv.step, LoggingEnv.call_env.
    rewrite prog_bind_eq. destruct (env_step action (LoggingEnv.env s)) as [e out].
    by rewrite prog_bind_eq, Hinfo.
  - intros kwargs s. unfold LoggingEnv.reset, LoggingEnv.call_env, gets, lift, modify.
    rewrite prog_bind_eq. destruct (env_reset kwargs (LoggingEnv.env s)) as [e out].
    do 2 rewrite prog_bind_eq.
    destruct (nd_setitem _ _ _); [|apply not_is_Ok_Raise].
    do 2 rewrite prog_bind_eq. rewrite Hinfo. apply not_is_Ok_Raise.
Qed.

Lemma append_inj (pre k k' : string) : pre +:+ k = pre +:+ k' → k = k'.
Proof. induction pre as [|c pre IH]; simpl; [done|]. intros [= ?]. auto. Qed.

Lemma dict_get_prefixed {V W} (f : V → W) (pre k : string) (d : dict V) :
  dict_get (pre +:+ k) (prod_map (String.append pre) f <$> d) = f <$> dict_get k d.
Proof.
  induction d as [|[k' v] d IH]; simpl; [done|].
  destruct (decide (k = k')) as [->|Hne].
  - by rewrite decide_True.
  - rewrite decide_False; [done|]. by intros ?%append_inj.
Qed.

Lemma dict_get_update {V} (d other : dict V) k :
  NoDup (dict_keys other) →
  dict_get k (dict_update d other)
  = match dict_get k other with Some v => Some v | None => dict_get k d end.
Proof.
  unfold dict_update. revert d.
  induction other as [|[k' v'] other IH]; intros d Hnd; simpl; [done|].
  apply NoDup_cons in Hnd as [Hk' Hnd]. rewrite IH by done.
  rewrite dict_get_set. cbn [fst snd].
  destruct (decide (k = k')) as [->|Hne]; [|done].
  destruct (dict_get k' other) as [v|] eqn:Hv; [|done].
  destruct Hk'. by eapply dict_keys_elem_of.
Qed.

(** The merge of line 83, which no call reaches as the code stands (line
    81 raises before it), makes no check: the logged value replaces
    whatever the incoming mapping holds under the prefixed key. *)
Lemma merge_logs_overwrites inf (g : @LoggingEnv.Game City) (peak : ndarray A) k v :
  let logs := dict_set "peak_city_tiles" (LoggingEnv.Arr peak) (LoggingEnv.logs g) in
  dict_get k logs = Some v →
  dict_get ("logging_" +:+ k) (LoggingEnv.merge_logs inf logs)
  = Some (LoggingEnv.np_array_val v).
Proof.
  intros logs Hk. unfold LoggingEnv.merge_logs.
  rewrite dict_get_update.
  - by rewrite dict_get_prefixed, Hk.
  - unfold logs. apply (bool_decide_unpack _). by vm_compute.
Qed.

End LoggingEnv_facts.

(** ** The result flattener *)
Section DictEnv_facts.
Context {Obs Reward Done Info : Type}.
Implicit Types (info : dict Info).

(** C6. If [info] has one of the keys ["obs"], ["reward"], ["done"], the
    flattener fails with an assertion error; otherwise it returns one
    mapping with the observation, the reward and the done flag under these
    keys, every entry of [info] under its own key, and nothing else. *)
Theorem DictEnv_flatten_spec (obs : Obs) (reward : Reward) (done : Done) info :
  (is_Some (dict_get "obs" info) ∨ is_Some (dict_get "reward" info)
     ∨ is_Some (dict_get "done" info) →
   DictEnv._dict_env_out (obs, reward, done, info) = Raise AssertionError)
  ∧ (dict_get "obs" info = None → dict_get "reward" info = None →
     dict_get "done" info = None →
     ∃ m, DictEnv._dict_env_out (obs, reward, done, info) = Ok m
       ∧ dict_get "obs" m = Some (DictEnv.VObs obs)
       ∧ dict_get "reward" m = Some (DictEnv.VReward reward)
       ∧ dict_get "done" m = Some (DictEnv.VDone done)
       ∧ (∀ k v, dict_get k info = Some v → dict_get k m = Some (DictEnv.VInfo v))
       ∧ (∀ k, is_Some (dict_get k m) →
            k = "obs" ∨ k = "reward" ∨ k = "done" ∨ is_Some (dict_get k info))).
Proof.
  unfold DictEnv._dict_env_out. split.
  - intros Hcol.
    destruct (dict_mem "obs" info) eqn:H1; [done|].
    destruct (dict_mem "reward" info) eqn:H2; [done|].
    destruct (dict_mem "done" info) eqn:H3; [done|].
    apply dict_mem_false in H1, H2, H3. rewrite H1, H2, H3 in Hcol.
    by destruct Hcol as [[? ?]|[[? ?]|[? ?]]].
  - intros H1 H2 H3.
    rewrite (proj2 (dict_mem_false _ _) H1), (proj2 (dict_mem_false _ _) H2),
      (proj2 (dict_mem_false _ _) H3).
    cbn [assert negb mbind result_bind]. eexists. split; [done|].
    split_and!; try done.
    + intros k v Hk. rewrite dict_get_app. cbn [dict_get].
      repeat (case_decide; [congruence|]). by rewrite dict_get_map, Hk.
    + intros k. rewrite dict_get_app. cbn [dict_get].
      repeat (case_decide; [by auto|]). rewrite dict_get_map.
      intros ?%fmap_is_Some. auto.
Qed.

End DictEnv_facts.

(** ** Keys that are already in the incoming [info] mapping *)
Section info_keys.
Context {A : Type} `{!Num A} {Env City : Type}.
Variable board_dims : Env → nat * nat.


End info_keys.

(** ** The statements on the sample environments *)

(** The constructor builds the sample padder, with the mask on the 12 x 12
    board. *)
Example PadEnv_init_sample :
  PadEnv.__init__ id (12, 12) (32, 32) = Ok Sample.padder.
Proof. by vm_compute. Qed.

(** C1 on the sample padder: after a reset to a 12 x 12 board the mask is 0
    on the first twelve rows and 1 on the first twelve cells of row 12. *)
Example PadEnv_reset_sample :
  PadEnv.input_mask (PadEnv.reset id Sample.board_reset (12, 12) Sample.padder).1
  = NDArray [1; 32; 32]
      (replicate (12 * 32) false ++ replicate 12 true ++ replicate 20 false
         ++ replicate (19 * 32) false).
Proof. by vm_compute. Qed.

(** With a board as large as the maximum, line 39 raises and the mask is
    left all 0. *)
Example PadEnv_reset_full_board :
  PadEnv.reset id Sample.board_reset (32, 32) Sample.padder
  = (PadEnv.Self (32, 32) (32, 32) (np_full [1; 32; 32] false), Raise IndexError).
Proof. by vm_compute. Qed.

Lemma PadEnv_reset_mask_single_row_witness :
  PadEnv.mask_ok Sample.small_padder
  ∧ nd_item
      (PadEnv.input_mask
         (PadEnv.reset id Sample.board_reset (2, 2) Sample.small_padder).1)
      [0; 0; 0]
    = Ok false.
Proof.
  split; [by split|].
  apply (PadEnv_reset_mask_single_row id Sample.board_reset (2, 2)
           Sample.small_padder 0 0); [by split|simpl; lia|simpl; lia].
Defined.

(** C2 on the sample game. *)
Example LoggingEnv_step_sample :
  LoggingEnv.step (λ _, Sample.game) (λ _ e, (e, Sample.counter_out [] 1)) []
    Sample.logger
  = (Sample.logger, Raise KeyError).
Proof. by vm_compute. Qed.

Lemma PadEnv_pad_crop_pad_witness :
  ∃ p, PadEnv._pad id Sample.small_padder Sample.small_board = Ok p
    ∧ shape p = [1; 1; 3; 4]
    ∧ PadEnv.crop id Sample.small_padder p = Ok Sample.small_board
    ∧ nd_item p [0; 0; 1; 1] = Ok 4%Z
    ∧ nd_item p [0; 0; 2; 1] = Ok 0%Z.
Proof.
  destruct (PadEnv_pad_crop_pad id Sample.small_padder Sample.small_board 1 1)
    as (p & Hp & Hsh & Hcrop & _ & Hitem);
    [reflexivity|reflexivity|simpl; lia|simpl; lia|].
  exists p. split; [exact Hp|]. split; [exact Hsh|]. split; [exact Hcrop|].
  split.
  - rewrite Hitem by (simpl; lia). reflexivity.
  - rewrite Hitem by (simpl; lia). reflexivity.
Defined.

Lemma PadEnv_info_pads_board_entries_witness :
  ∃ out, PadEnv.info id Sample.small_padder
           [("tiles", Sample.small_board); ("turn", NDArray [1] [5%Z])] = Ok out
    ∧ dict_get "turn" out = Some (NDArray [1] [5%Z])
    ∧ ∃ p, PadEnv._pad id Sample.small_padder Sample.small_board = Ok p
         ∧ dict_get "tiles" out = Some p.
Proof.
  destruct (PadEnv_info_pads_board_entries id Sample.small_padder
              [("tiles", Sample.small_board); ("turn", NDArray [1] [5%Z])])
    as (out & Hout & Hentries); [simpl; lia|simpl; lia|reflexivity| |].
  - intros k v Hin Ht.
    apply elem_of_cons in Hin as [[= -> ->]|Hin]; [reflexivity|].
    apply elem_of_cons in Hin as [[= -> ->]|Hin]; [discriminate Ht|].
    by apply elem_of_nil in Hin.
  - exists out. split; [exact Hout|]. split.
    + exact (Hentries "turn" (NDArray [1] [5%Z]) eq_refl).
    + destruct (Hentries "tiles" Sample.small_board eq_refl) as (p & Hp & _ & _ & Hget).
      by exists p.
Defined.

Lemma DictEnv_flatten_spec_witness :
  DictEnv._dict_env_out (1, 2, false, [("reward", 3)]) = Raise AssertionError
  ∧ ∃ m, DictEnv._dict_env_out (1, 2, false, [("turn", 3)]) = Ok m
       ∧ dict_get "turn" m = Some (DictEnv.VInfo 3).
Proof.
  split.
  - apply (proj1 (DictEnv_flatten_spec 1 2 false [("reward", 3)])).
    right; left. by eexists.
  - destruct (proj2 (DictEnv_flatten_spec 1 2 false [("turn", 3)]))
      as (m & Hm & _ & _ & _ & Hinfo & _); [reflexivity..|].
    exists m. split; [exact Hm|]. by apply Hinfo.
Defined.


Lemma VecEnv_step_stacks_witness :
  ∃ v, VecEnv.step Sample.counter_step Sample.batched_action (VecEnv.__init__ [0; 1])
       = (VecEnv.Self [1; 2]
            [ Some (Sample.counter_out [("move", NDArray [2] [1; 2]%Z)] 1);
              Some (Sample.counter_out [("move", NDArray [2] [3; 4]%Z)] 2) ],
          Ok v)
    ∧ VecEnv.leading_dim v 2
    ∧ VecEnv.entry_of v 1 (Sample.counter_out [("move", NDArray [2] [3; 4]%Z)] 2).
Proof.
  destruct (VecEnv_step_stacks Sample.counter_step (VecEnv.__init__ [0; 1])
              Sample.batched_action
              [ (1, Sample.counter_out [("move", NDArray [2] [1; 2]%Z)] 1);
                (2, Sample.counter_out [("move", NDArray [2] [3; 4]%Z)] 2) ]
              (Sample.counter_out [("move", NDArray [2] [1; 2]%Z)] 1))
    as (v & Hv & Hdim & Hentry);
    [reflexivity|reflexivity|solve_stackable|solve_stackable|].
  exists v. split; [exact Hv|]. split; [exact Hdim|].
  exact (Hentry 1 _ eq_refl).
Defined.

(** C4 on the sample instances: the stacked result. *)
Example VecEnv_step_sample :
  (VecEnv.step Sample.counter_step Sample.batched_action (VecEnv.__init__ [0; 1])).2
  = Ok (VecEnv.VecOut
          [("move", NDArray [2; 2] [1; 2; 3; 4]%Z)]
          (NDArray [2] [1; 2]%Z)
          (NDArray [2] [false; false])
          [("turn", NDArray [2; 1] [1; 2]%Z)]).
Proof. by vm_compute. Qed.

Lemma VecEnv_reset_selective_witness :
  (VecEnv.reset Sample.counter_reset false tt Sample.vec).1
  = VecEnv.Self [0; 1]
      [ Some (Sample.counter_out [("move", NDArray [2] [0; 0]%Z)] 0);
        Some (Sample.counter_out [("move", NDArray [2] [7; 8]%Z)] 1) ]
  ∧ ∃ v, (VecEnv.reset Sample.counter_reset false tt Sample.vec).2 = Ok v
      ∧ VecEnv.entry_of v 1 (Sample.counter_out [("move", NDArray [2] [7; 8]%Z)] 1).
Proof.
  destruct (VecEnv_reset_selective Sample.counter_reset Sample.vec tt
              [ Sample.counter_out [("move", NDArray [2] [5; 6]%Z)] 3;
                Sample.counter_out [("move", NDArray [2] [7; 8]%Z)] 1 ])
    as (Hstate & _ & _ & Hreturns);
    [reflexivity|reflexivity|solve_stackable|].
  split; [exact Hstate|].
  destruct (Hreturns (Sample.counter_out [("move", NDArray [2] [0; 0]%Z)] 0))
    as (v & Hv & Hentry); [reflexivity|solve_stackable|].
  exists v. split; [exact Hv|].
  exact (Hentry 1 _ eq_refl eq_refl).
Defined.

(** C3 on the sample instances: the first instance is reset, the second
    one contributes its cached result. *)
Example VecEnv_reset_sample :
  (VecEnv.reset Sample.counter_reset false tt Sample.vec).2
  = Ok (VecEnv.VecOut
          [("move", NDArray [2; 2] [0; 0; 7; 8]%Z)]
          (NDArray [2] [0; 1]%Z)
          (NDArray [2] [false; false])
          [("turn", NDArray [2; 1] [0; 1]%Z)]).
Proof. by vm_compute. Qed.

(** C10 on two fresh instances. *)
Example VecEnv_fresh_reset_sample :
  VecEnv.reset Sample.counter_reset false tt (VecEnv.__init__ [0; 1])
  = (VecEnv.Self [0; 1] [None; None], Raise IndexError).
Proof. by vm_compute. Qed.

(** C4 as stated fails: instances whose mappings share their key sets are
    not enough. [step] raises without instances (nothing to unpack), on
    results of different shapes under a common key ([np.stack] refuses
    them), and on a batched action with fewer entries than instances. *)
Lemma VecEnv_step_counterexample :
  (VecEnv.step Sample.counter_step Sample.batched_action
     (@VecEnv.__init__ Z nat [])).2 = Raise ValueError
  ∧ (VecEnv.step (λ a e, (e, Sample.counter_out [("tiles", NDArray [e] (replicate e 0%Z))] 0))
       [] (VecEnv.__init__ [1; 2])).2 = Raise ValueError
  ∧ (VecEnv.step Sample.counter_step Sample.batched_action
       (VecEnv.__init__ [0; 1; 2])).2 = Raise IndexError.
Proof. by vm_compute. Qed.

(** C7 as stated fails: a two-dimensional entry of the board size has the
    trailing dimensions of the board, and [PadEnv.info] raises on it. *)
Lemma PadEnv_info_counterexample :
  trailing2 (NDArray [2; 2] [1; 2; 3; 4]%Z)
  = [(PadEnv.orig_board_dims id Sample.small_padder).1;
     (PadEnv.orig_board_dims id Sample.small_padder).2]
  ∧ PadEnv.info id Sample.small_padder [("heat", NDArray [2; 2] [1; 2; 3; 4]%Z)]
    = Raise ValueError.
Proof. by vm_compute. Qed.

(** * Further properties of the wrappers *)

(** ** Slicing *)
Section slicing_facts.
Context {A : Type}.
Implicit Types (l : list A) (s bs : list nat).

Lemma take_data_uniform n s bs m l :
  length bs = length s → length l = n * numel s →
  (∀ x : list A, length x = numel s →
        length (take_data s bs x) = numel (zip_with Nat.min bs s)) →
  Forall (λ x, length x = numel (zip_with Nat.min bs s))
    (take_data s bs <$> take m (chunks n (numel s) l)).
Proof.
  intros Hbs Hl IH. apply Forall_fmap, Forall_take.
  eapply Forall_impl; [apply (chunks_uniform n (numel s)); lia|].
  intros x Hx; simpl. by apply IH.
Qed.

Lemma length_take_data s bs l :
  length bs = length s → length l = numel s →
  length (take_data s bs l) = numel (zip_with Nat.min bs s).
Proof.
  revert bs l. induction s as [|n s IH]; intros [|m bs] l Hbs Hl; try done.
  simpl in *. erewrite length_concat_uniform;
    [|apply take_data_uniform; [lia|done|intros; apply IH; [lia|done]]].
  by rewrite length_fmap, length_take, length_chunks.
Qed.

(** Entry [i] along the leading axis of a slice is the slice of entry [i]. *)
Lemma nd_index_cropped n s m bs l i :
  length bs = length s → length l = n * numel s → i < m `min` n →
  nd_index (NDArray (zip_with Nat.min (m :: bs) (n :: s))
                    (take_data (n :: s) (m :: bs) l)) i
  = Ok (NDArray (zip_with Nat.min bs s)
          (take_data s bs (take (numel s) (drop (i * numel s) l)))).
Proof.
  intros Hbs Hl Hi. erewrite nd_index_Ok; [|reflexivity|done].
  do 2 f_equal. cbn [take_data]. apply take_drop_concat.
  - apply take_data_uniform; [done..|]. intros. by apply length_take_data.
  - rewrite list_lookup_fmap, lookup_take_lt, lookup_chunks by lia. done.
Qed.

(** A slice holds, at every index inside it, the element the array holds
    at that index. *)
Lemma nd_item_cropped s bs l idx :
  length bs = length s → length l = numel s →
  Forall2 lt idx (zip_with Nat.min bs s) →
  nd_item (NDArray (zip_with Nat.min bs s) (take_data s bs l)) idx
  = nd_item (NDArray s l) idx.
Proof.
  revert bs l idx.
  induction s as [|n s IH]; intros [|m bs] l idx Hbs Hl Hidx; try done.
  change (zip_with Nat.min (m :: bs) (n :: s))
    with ((m `min` n) :: zip_with Nat.min bs s) in Hidx.
  apply Forall2_cons_inv_r in Hidx as (i & idx' & Hi & Hidx & ->).
  simpl in Hbs, Hl. cbn [nd_item].
  rewrite nd_index_cropped by (done || lia).
  erewrite (nd_index_Ok (NDArray (n :: s) l)); [|reflexivity|lia].
  cbn [mbind result_bind]. apply IH; [lia| |done].
  eapply length_block; [done|lia].
Qed.

Lemma zip_with_min_le s bs : Forall2 le s bs → zip_with Nat.min bs s = s.
Proof.
  induction 1 as [|n m s bs Hnm _ IH]; simpl; [done|]. rewrite IH. f_equal. lia.
Qed.

(** A slice whose bounds are not below the dimensions is the whole array. *)
Lemma take_data_id s bs l :
  Forall2 le s bs → length l = numel s → take_data s bs l = l.
Proof.
  intros Hle. revert l. induction Hle as [|n m s bs Hnm _ IH]; intros l Hl; [done|].
  simpl in *. rewrite take_ge by (rewrite length_chunks; lia).
  rewrite <-(concat_chunks n (numel s) l) at 2 by done. f_equal.
  rewrite <-(list_fmap_id (chunks n (numel s) l)) at 2.
  apply Forall_fmap_ext_1.
  eapply Forall_impl; [apply (chunks_uniform n (numel s)); lia|].
  intros x Hx; simpl. by apply IH.
Qed.

(** [a[..., :r, :c]] on an array with at least two axes. *)
Lemma nd_crop_Ok r c lead h w l :
  nd_crop r c (NDArray (lead ++ [h; w]) l)
  = Ok (NDArray (lead ++ [r `min` h; c `min` w])
          (take_data (lead ++ [h; w]) (lead ++ [r; c]) l)).
Proof.
  unfold nd_crop. cbn [shape data].
  rewrite decide_True by (rewrite length_app; simpl; lia).
  replace (length (lead ++ [h; w]) - 2) with (length lead)
    by (rewrite length_app; simpl; lia).
  rewrite take_app_length. do 2 f_equal.
  rewrite zip_with_app by done. f_equal.
  apply zip_with_min_le. by apply Forall2_same_length_lookup_2; [|intros; simplify_eq].
Qed.

Lemma nd_crop_few_axes r c (a : ndarray A) :
  length (shape a) < 2 → nd_crop r c a = Raise IndexError.
Proof. intros Hnd. unfold nd_crop. rewrite decide_False by lia. done. Qed.

Lemma shape_lead_trailing (a : ndarray A) :
  2 ≤ length (shape a) →
  ∃ lead h w, shape a = lead ++ [h; w] ∧ trailing2 a = [h; w].
Proof.
  intros Hnd. unfold trailing2.
  set (k := length (shape a) - 2).
  assert (length (drop k (shape a)) = 2) as Hlen by (rewrite length_drop; lia).
  destruct (drop k (shape a)) as [|h [|w [|]]] eqn:Hd; try done.
  exists (take k (shape a)), h, w. split; [|done].
  by rewrite <-Hd, take_drop.
Qed.

End slicing_facts.

(** ** More on dictionaries *)
Section dict_more.
Context {V W : Type}.

Lemma dict_mapM_dict_keys (f : string → V → result W) (d : dict V) (d' : dict W) :
  dict_mapM f d = Ok d' → dict_keys d' = dict_keys d.
Proof.
  rewrite dict_mapM_Ok. unfold dict_keys.
  induction 1 as [|[k1 v] [k2 w] d d' [Hk Hf] _ IH]; simpl in *; [done|].
  by f_equal.
Qed.

Lemma dict_set_absent (k : string) (v : V) (d : dict V) :
  dict_get k d = None → dict_set k v d = d ++ [(k, v)].
Proof.
  induction d as [|[k' v'] d IH]; simpl; [done|].
  case_decide; [done|]. intros Hd. by rewrite IH.
Qed.

(** Undoing a comprehension item by item. *)
Lemma dict_mapM_round_trip (f : string → V → result W) (g : string → W → result V)
    (d : dict V) (d' : dict W) :
  dict_mapM f d = Ok d' →
  (∀ k v w, (k, v) ∈ d → f k v = Ok w → g k w = Ok v) →
  dict_mapM g d' = Ok d.
Proof.
  rewrite dict_mapM_Ok. induction 1 as [|[k1 v] [k2 w] d d' [Hk Hf] _ IH];
    intros Hg; simpl in *; [done|]. subst k2.
  rewrite (Hg k1 v w) by (done || left). simpl.
  rewrite IH; [done|]. intros k v' w' Hin. apply Hg. by right.
Qed.

Lemma dict_mapM_all_Ok (f : string → V → result W) (d : dict V) :
  is_Ok (dict_mapM f d) ↔ ∀ k v, (k, v) ∈ d → is_Ok (f k v).
Proof.
  split; [|apply dict_mapM_is_Ok].
  intros [d' Hd'] k v Hin. apply dict_mapM_Ok in Hd'.
  apply list_elem_of_lookup in Hin as [i Hi].
  destruct (Forall2_lookup_l _ _ _ _ _ Hd' Hi) as ([k' w] & _ & _ & Hw).
  by exists w.
Qed.

End dict_more.

(** ** More on the board padder *)
Section PadEnv_more.
Context {A : Type} `{!Num A} {Env Kw : Type}.
Variable board_dims : Env → nat * nat.
Variable env_reset : Kw → Env → Env * env_out A.
Variable env_step : dict (ndarray A) → Env → Env * env_out A.
Implicit Types (s : @PadEnv.self Env) (arr : ndarray A).

Local Abbreviation orig_board_dims := (PadEnv.orig_board_dims board_dims).
Local Abbreviation end_pads := (PadEnv.end_pads board_dims).
Local Abbreviation _pad := (PadEnv._pad board_dims).
Local Abbreviation crop := (PadEnv.crop board_dims).
Local Abbreviation max_board_size := PadEnv.max_board_size.

Lemma _pad_too_small s arr :
  (max_board_size s).1 < (orig_board_dims s).1
  ∨ (max_board_size s).2 < (orig_board_dims s).2 →
  _pad s arr = Raise ValueError.
Proof.
  intros Hsmall. unfold PadEnv._pad, np_pad, PadEnv.pad_width.
  rewrite decide_False; [done|]. intros HF.
  apply Forall_cons in HF as [_ HF]. apply Forall_cons in HF as [_ HF].
  apply Forall_cons in HF as [[_ H1] HF]. apply Forall_cons in HF as [[_ H2] _].
  simpl in *. lia.
Qed.

Lemma _pad_is_Ok_inv s arr :
  is_Ok (_pad s arr) →
  length (shape arr) = 4
  ∧ (orig_board_dims s).1 ≤ (max_board_size s).1
  ∧ (orig_board_dims s).2 ≤ (max_board_size s).2.
Proof.
  intros Hok.
  destruct (decide (length (shape arr) = 4)) as [Hnd|Hnd];
    [|rewrite _pad_not_4d in Hok by done; by apply not_is_Ok_Raise in Hok].
  destruct (decide ((orig_board_dims s).1 ≤ (max_board_size s).1)) as [Hr|Hr];
    [|rewrite _pad_too_small in Hok by lia; by apply not_is_Ok_Raise in Hok].
  destruct (decide ((orig_board_dims s).2 ≤ (max_board_size s).2)) as [Hc|Hc];
    [|rewrite _pad_too_small in Hok by lia; by apply not_is_Ok_Raise in Hok].
  done.
Qed.

(** X1. [_pad] returns exactly for the arrays with four axes, and only when
    the board is not larger than the maximum board; otherwise it raises
    [ValueError], and no other exception. *)
Theorem PadEnv_pad_returns_iff s arr :
  (is_Ok (_pad s arr) ↔
     length (shape arr) = 4
     ∧ (orig_board_dims s).1 ≤ (max_board_size s).1
     ∧ (orig_board_dims s).2 ≤ (max_board_size s).2)
  ∧ (¬ is_Ok (_pad s arr) → _pad s arr = Raise ValueError).
Proof.
  split; [split|].
  - apply _pad_is_Ok_inv.
  - intros (Hnd & Hr & Hc). rewrite _pad_Ok by done. apply is_Ok_Ok.
  - intros Hn. destruct (_pad s arr) as [p|e] eqn:Hp; [destruct Hn; apply is_Ok_Ok|].
    f_equal. by eapply _pad_Raise.
Qed.

(** X2. [_pad] adds a fixed number of rows and columns, the difference of
    the maximum and the original board size, to whatever four-dimensional
    array it is given: the result holds the array on its own extent and 0
    in the added rows and columns. *)
Theorem PadEnv_pad_fixed_width s arr a b h w :
  shape arr = [a; b; h; w] → nd_wf arr →
  (orig_board_dims s).1 ≤ (max_board_size s).1 →
  (orig_board_dims s).2 ≤ (max_board_size s).2 →
  ∃ p, _pad s arr = Ok p
    ∧ shape p = [a; b; h + ((max_board_size s).1 - (orig_board_dims s).1);
                 w + ((max_board_size s).2 - (orig_board_dims s).2)]
    ∧ nd_wf p
    ∧ ∀ i j x y, Forall2 lt [i; j; x; y] (shape p) →
        nd_item p [i; j; x; y]
        = if decide (x < h ∧ y < w) then nd_item arr [i; j; x; y] else Ok num_zero.
Proof.
  intros Hs Hwf Hr Hc. destruct arr as [sh l]. simpl in Hs; subst sh.
  unfold nd_wf in Hwf; cbn [shape data] in Hwf.
  rewrite _pad_Ok by done. cbn [shape data]. eexists. split; [done|].
  assert (Forall (λ p : nat * nat, p.1 = 0) (end_pads s)) as Hb
    by (by repeat constructor).
  split.
  { cbn [shape]. unfold pad_shape, PadEnv.end_pads; simpl. repeat f_equal; lia. }
  split.
  { unfold nd_wf. cbn [shape data]. by apply length_pad_data. }
  intros i j x y Hidx. cbn [shape] in Hidx.
  rewrite nd_item_padded by done.
  apply Forall2_cons in Hidx as [Hi Hidx]. apply Forall2_cons in Hidx as [Hj Hidx].
  simpl in Hi, Hj.
  destruct (decide (x < h ∧ y < w)) as [[Hx Hy]|Hn].
  - rewrite decide_True; [done|]. repeat constructor; lia.
  - rewrite decide_False; [done|]. intros HF. apply Hn.
    apply Forall2_cons in HF as [_ HF]. apply Forall2_cons in HF as [_ HF].
    apply Forall2_cons in HF as [? HF]. by apply Forall2_cons in HF as [? _].
Qed.

(** X3. [observation] keeps the keys and their order and pads every
    entry; it raises [ValueError] as soon as one entry has not four axes. *)
Theorem PadEnv_observation_spec s (obs : dict (ndarray A)) :
  ((orig_board_dims s).1 ≤ (max_board_size s).1 →
   (orig_board_dims s).2 ≤ (max_board_size s).2 →
   Forall (λ kv, length (shape kv.2) = 4) obs →
   ∃ out, PadEnv.observation board_dims s obs = Ok out
     ∧ dict_keys out = dict_keys obs
     ∧ ∀ k v, dict_get k obs = Some v →
         ∃ p, _pad s v = Ok p ∧ dict_get k out = Some p)
  ∧ (∀ k v, (k, v) ∈ obs → length (shape v) ≠ 4 →
       PadEnv.observation board_dims s obs = Raise ValueError).
Proof.
  unfold PadEnv.observation. split.
  - intros Hr Hc H4.
    destruct (dict_mapM_is_Ok (λ _ val, _pad s val) obs) as [out Hout].
    { intros k v Hin. rewrite _pad_Ok; [apply is_Ok_Ok|done..|].
      by apply (proj1 (Forall_forall _ _) H4 _ Hin). }
    exists out. split; [done|]. split; [by eapply dict_mapM_dict_keys|].
    intros k v Hk. pose proof (dict_get_mapM _ _ _ k Hout) as Hkv.
    by rewrite Hk in Hkv.
  - intros k v Hin Hnd.
    destruct (dict_mapM (λ _ val, _pad s val) obs) as [out|e] eqn:Hout.
    + destruct (dict_mapM_elem_Raise (λ _ val, _pad s val) obs k v ValueError Hin).
      * by apply _pad_not_4d.
      * by exists out.
    + f_equal. apply dict_mapM_Raise in Hout as (k' & v' & _ & Hf).
      by eapply _pad_Raise.
Qed.

(** X4. [PadEnv.info] returns exactly when the incoming mapping has no
    key ["input_mask"] and [_pad] accepts every entry whose trailing two
    dimensions are the board size. What it returns has the incoming keys in
    their order followed by ["input_mask"], which holds the mask of the
    padder. *)
Theorem PadEnv_info_returns_iff s (inf : dict (ndarray A)) :
  (is_Ok (PadEnv.info board_dims s inf) ↔
     dict_get "input_mask" inf = None
     ∧ ∀ k v, (k, v) ∈ inf →
         trailing2 v = [(orig_board_dims s).1; (orig_board_dims s).2] →
         is_Ok (_pad s v))
  ∧ (∀ out, PadEnv.info board_dims s inf = Ok out →
       dict_keys out = dict_keys inf ++ ["input_mask"]
       ∧ dict_get "input_mask" out
         = Some (nd_map num_of_bool (PadEnv.input_mask s))).
Proof.
  unfold PadEnv.info.
  match goal with |- context [dict_mapM ?g inf] => set (f := g) end.
  assert (∀ inf', dict_mapM f inf = Ok inf' →
            dict_mem "input_mask" inf' = dict_mem "input_mask" inf) as Hmem.
  { intros inf' Hinf'. pose proof (dict_get_mapM f inf inf' "input_mask" Hinf') as Hm.
    unfold dict_mem. destruct (dict_get "input_mask" inf) as [v|] eqn:Hv.
    - destruct Hm as (w & _ & ->). by rewrite !bool_decide_eq_true_2 by eauto.
    - rewrite Hm. done. }
  split; [split|].
  - intros [out Hout]. destruct (dict_mapM f inf) as [inf'|e] eqn:Hinf'; [|done].
    cbn [mbind result_bind] in Hout. rewrite (Hmem _ eq_refl) in Hout.
    destruct (dict_mem "input_mask" inf) eqn:Hm; [done|]. split.
    + by apply dict_mem_false.
    + intros k v Hin Ht.
      pose proof (proj1 (dict_mapM_all_Ok f inf) (ex_intro _ _ Hinf') k v Hin) as Hf.
      unfold f in Hf. by rewrite decide_True in Hf.
  - intros [Hmask Hpads].
    destruct (dict_mapM_is_Ok f inf) as [inf' Hinf'].
    { intros k v Hin. unfold f. case_decide; [by eapply Hpads|apply is_Ok_Ok]. }
    rewrite Hinf'. cbn [mbind result_bind]. rewrite (Hmem _ Hinf').
    rewrite (proj2 (dict_mem_false _ _) Hmask). apply is_Ok_Ok.
  - intros out. destruct (dict_mapM f inf) as [inf'|e] eqn:Hinf'; [|done].
    cbn [mbind result_bind]. destruct (dict_mem "input_mask" inf') eqn:Hm; [done|].
    cbn [assert negb mbind result_bind]. intros [= <-].
    apply dict_mem_false in Hm. split.
    + rewrite dict_set_absent by done. unfold dict_keys.
      rewrite fmap_app. f_equal. by apply (dict_mapM_dict_keys f).
    + rewrite dict_get_set. by rewrite decide_True.
Qed.

Lemma crop_shape (lead : list nat) r c h w :
  zip_with Nat.min (lead ++ [r; c]) (lead ++ [h; w])
  = lead ++ [r `min` h; c `min` w].
Proof.
  rewrite zip_with_app by done. f_equal. apply zip_with_min_le.
  by apply Forall2_same_length_lookup_2; [|intros; simplify_eq].
Qed.

(** An array whose last two axes are not larger than the board is cropped
    to itself. *)
Lemma crop_within_board s arr lead h w :
  shape arr = lead ++ [h; w] → nd_wf arr →
  h ≤ (orig_board_dims s).1 → w ≤ (orig_board_dims s).2 →
  crop s arr = Ok arr.
Proof.
  intros Hs Hwf Hh Hw. destruct arr as [sh l]. simpl in Hs; subst sh.
  unfold PadEnv.crop. rewrite nd_crop_Ok. do 2 f_equal.
  - repeat f_equal; lia.
  - apply take_data_id; [|done]. apply Forall2_app.
    + by apply Forall2_same_length_lookup_2; [|intros; simplify_eq].
    + by repeat constructor.
Qed.

(** X5. The crop of [step] raises [IndexError] on an array with fewer than
    two axes. On any other array it keeps the leading axes, clips the last
    two to the board size, never enlarging them, and keeps every element
    that is left at its index; an array that is not larger than the board
    is cropped to itself. *)
Theorem PadEnv_crop_spec s arr :
  (length (shape arr) < 2 → crop s arr = Raise IndexError)
  ∧ (∀ lead h w, shape arr = lead ++ [h; w] →
       ∃ cr, crop s arr = Ok cr
         ∧ shape cr = lead ++ [(orig_board_dims s).1 `min` h;
                               (orig_board_dims s).2 `min` w]
         ∧ (nd_wf arr →
            nd_wf cr
            ∧ (∀ idx, Forall2 lt idx (shape cr) → nd_item cr idx = nd_item arr idx)
            ∧ (h ≤ (orig_board_dims s).1 → w ≤ (orig_board_dims s).2 → cr = arr))).
Proof.
  split; [by apply nd_crop_few_axes|].
  intros lead h w Hs.
  assert (∀ cr, crop s arr = Ok cr → nd_wf arr →
            h ≤ (orig_board_dims s).1 → w ≤ (orig_board_dims s).2 → cr = arr)
    as Hid.
  { intros cr Hcr Hwf Hh Hw. rewrite (crop_within_board s arr lead h w) in Hcr by done.
    congruence. }
  destruct arr as [sh l]. simpl in Hs; subst sh.
  unfold PadEnv.crop in *. rewrite nd_crop_Ok in *. eexists. split; [done|].
  split; [done|]. intros Hwf. split_and!.
  - unfold nd_wf in *. cbn [shape data] in *. rewrite <-crop_shape.
    apply length_take_data; [by rewrite !length_app|done].
  - unfold nd_wf in *. cbn [shape data] in *. rewrite <-crop_shape.
    intros idx Hidx. apply nd_item_cropped; [by rewrite !length_app|done..].
  - intros Hh Hw. by apply Hid.
Qed.

(** Cropping undoes the padding of a board-sized array. *)
Lemma crop_pad s arr a b p :
  shape arr = [a; b; (orig_board_dims s).1; (orig_board_dims s).2] →
  nd_wf arr → _pad s arr = Ok p → crop s p = Ok arr.
Proof.
  intros Hs Hwf Hp.
  destruct (_pad_is_Ok_inv s arr (ex_intro _ _ Hp)) as (_ & Hr & Hc).
  destruct arr as [sh l]. simpl in Hs; subst sh.
  set (sh := [a; b; (orig_board_dims s).1; (orig_board_dims s).2]) in *.
  assert (p = NDArray (pad_shape sh (end_pads s))
                (pad_data num_zero sh (end_pads s) l)) as ->
    by (rewrite _pad_Ok in Hp by done; cbn [shape data] in Hp; congruence).
  pose proof (end_pads_shape board_dims s a b Hr Hc) as Hsh. fold sh in Hsh.
  unfold PadEnv.crop.
  transitivity (nd_crop (orig_board_dims s).1 (orig_board_dims s).2
    (NDArray ([a; b] ++ [(max_board_size s).1; (max_board_size s).2])
       (pad_data num_zero sh (end_pads s) l))); [by rewrite Hsh|].
  rewrite nd_crop_Ok. cbn [app]. do 2 f_equal.
  - unfold sh. repeat f_equal; lia.
  - rewrite <-Hsh. apply take_pad_data; [done|by repeat constructor|done].
Qed.

Lemma crop_Raise s arr e : crop s arr = Raise e → e = IndexError.
Proof. unfold PadEnv.crop, nd_crop. case_decide; congruence. Qed.

(** X6. Stepping with the padded action is stepping with the action: when
    the entries of an action are well-formed arrays of the board size with
    four axes, [step] on their padding and [step] on the action itself do
    the same, and the inner environment is stepped on the action. *)
Theorem PadEnv_step_unpads_action s (act padded : dict (ndarray A)) :
  Forall (λ kv, (∃ a b, shape kv.2
                        = [a; b; (orig_board_dims s).1; (orig_board_dims s).2])
                ∧ nd_wf kv.2) act →
  PadEnv.observation board_dims s act = Ok padded →
  PadEnv.step board_dims env_step padded s = PadEnv.step board_dims env_step act s
  ∧ (PadEnv.step board_dims env_step padded s).1
    = PadEnv.set_env (env_step act (PadEnv.env s)).1 s.
Proof.
  intros Hact Hpadded.
  assert (dict_mapM (λ _ val, crop s val) padded = Ok act) as Hcrop1.
  { eapply dict_mapM_round_trip; [exact Hpadded|]. intros k v w Hin Hw.
    destruct (proj1 (Forall_forall _ _) Hact _ Hin) as [(a & b & Hs) Hwf].
    by eapply crop_pad. }
  assert (dict_mapM (λ _ val, crop s val) act = Ok act) as Hcrop2.
  { apply dict_mapM_Ok. apply Forall2_same_length_lookup_2; [done|].
    intros i [k v] [k' v'] Hi Hi'. rewrite Hi in Hi'. injection Hi' as <- <-.
    split; [done|]. simpl.
    destruct (proj1 (Forall_forall _ _) Hact (k, v)) as [(a & b & Hs) Hwf];
      [by eapply list_elem_of_lookup_2|].
    by apply (crop_within_board s v [a; b] _ _ Hs). }
  unfold PadEnv.step, PadEnv.method. rewrite !(prog_bind_eq _ _ s).
  rewrite Hcrop1, Hcrop2. split; [done|].
  rewrite prog_bind_eq. unfold PadEnv.call_env at 1.
  destruct (env_step act (PadEnv.env s)) as [e out]. cbn [fst].
  rewrite prog_bind_eq.
  destruct (PadEnv.observation board_dims (PadEnv.set_env e s) (out_obs out));
    [|done].
  rewrite prog_bind_eq. by destruct (PadEnv.info _ _ _).
Qed.

(** X7. An action array with fewer than two axes makes [step] raise
    [IndexError] before the inner environment is stepped: the padder and
    the environment are left as they were. *)
Theorem PadEnv_step_few_axes s (action : dict (ndarray A)) k v :
  (k, v) ∈ action → length (shape v) < 2 →
  PadEnv.step board_dims env_step action s = (s, Raise IndexError).
Proof.
  intros Hin Hnd. unfold PadEnv.step, PadEnv.method. rewrite prog_bind_eq.
  destruct (dict_mapM (λ _ val, crop s val) action) as [act|e] eqn:Hact.
  - destruct (dict_mapM_elem_Raise (λ _ val, crop s val) action k v IndexError Hin).
    + by apply nd_crop_few_axes.
    + by exists act.
  - do 2 f_equal. apply dict_mapM_Raise in Hact as (k' & v' & _ & Hf).
    by eapply crop_Raise.
Qed.

(** X8. The mask keeps its shape [(1, max_rows, max_cols)] and its size
    through [reset] and [step], whether they return or raise; neither call
    changes the maximum board size, and [step] leaves the mask as it is. *)
Theorem PadEnv_mask_invariant (kwargs : Kw) (action : dict (ndarray A)) s :
  PadEnv.mask_ok s →
  let s1 := (PadEnv.reset board_dims env_reset kwargs s).1 in
  let s2 := (PadEnv.step board_dims env_step action s).1 in
  PadEnv.mask_ok s1 ∧ max_board_size s1 = max_board_size s
  ∧ PadEnv.mask_ok s2 ∧ max_board_size s2 = max_board_size s
  ∧ PadEnv.input_mask s2 = PadEnv.input_mask s.
Proof.
  intros Hok s1 s2. split; [by apply PadEnv_reset_mask_ok|].
  split; [subst s1; by rewrite PadEnv_reset_state|].
  split; [by apply PadEnv_step_mask_ok|].
  subst s2. unfold PadEnv.step, PadEnv.method, PadEnv.call_env, PadEnv.set_env.
  rewrite prog_bind_eq. destruct (dict_mapM _ action); [|done].
  rewrite prog_bind_eq. destruct (env_step _ _) as [e out].
  rewrite prog_bind_eq. destruct (PadEnv.observation _ _ _); [|done].
  rewrite prog_bind_eq. by destruct (PadEnv.info _ _ _).
Qed.

(** X9. When the board after the inner reset has at least as many rows as
    the maximum board, [reset] raises [IndexError] (line 39 indexes a row
    that does not exist): the inner environment has been reset, the mask is
    all 0 and nothing is returned. *)
Theorem PadEnv_reset_full_height_raises (kwargs : Kw) s :
  PadEnv.mask_ok s →
  let e := (env_reset kwargs (PadEnv.env s)).1 in
  (max_board_size s).1 ≤ (board_dims e).1 →
  PadEnv.reset board_dims env_reset kwargs s
  = (PadEnv.Self e (max_board_size s)
       (np_full [1; (max_board_size s).1; (max_board_size s).2] false),
     Raise IndexError).
Proof.
  intros [Hsh Hwf] e Hfull. subst e.
  unfold PadEnv.reset, PadEnv.method, gets, lift, modify, PadEnv.orig_board_dims,
    PadEnv.set_input_mask.
  rewrite prog_bind_eq. unfold PadEnv.call_env at 1, PadEnv.set_env.
  destruct (env_reset kwargs (PadEnv.env s)) as [e out]. cbn [fst] in *.
  do 2 rewrite prog_bind_eq. cbn [PadEnv.env PadEnv.max_board_size PadEnv.input_mask].
  rewrite nd_setitem_All by (done || by rewrite Hsh). rewrite Hsh.
  do 3 rewrite prog_bind_eq. cbn [PadEnv.env PadEnv.max_board_size PadEnv.input_mask].
  unfold nd_setitem.
  cbn [np_full shape data length zip zip_with forallb sel_ok fst snd andb].
  rewrite decide_True by lia. by rewrite bool_decide_eq_false_2 by lia.
Qed.

(** X10. The padder hands the reward and the done flag of the inner
    environment through: whatever [reset] or [step] returns carries the
    reward and flag of the inner call, [step] having been made on the
    cropped action. *)
Theorem PadEnv_passes_reward_done (kwargs : Kw) (action : dict (ndarray A)) s out' :
  ((PadEnv.reset board_dims env_reset kwargs s).2 = Ok out' →
     out_reward out' = out_reward (env_reset kwargs (PadEnv.env s)).2
     ∧ out_done out' = out_done (env_reset kwargs (PadEnv.env s)).2)
  ∧ ((PadEnv.step board_dims env_step action s).2 = Ok out' →
     ∃ act, dict_mapM (λ _ val, crop s val) action = Ok act
       ∧ out_reward out' = out_reward (env_step act (PadEnv.env s)).2
       ∧ out_done out' = out_done (env_step act (PadEnv.env s)).2).
Proof.
  split.
  - unfold PadEnv.reset, PadEnv.method, gets, lift, modify.
    rewrite prog_bind_eq. unfold PadEnv.call_env at 1.
    destruct (env_reset kwargs (PadEnv.env s)) as [e out]. cbn [snd].
    do 2 rewrite prog_bind_eq. destruct (nd_setitem [All] _ _); [|done].
    do 3 rewrite prog_bind_eq. destruct (nd_setitem _ _ _); [|done].
    do 2 rewrite prog_bind_eq. destruct (PadEnv.observation _ _ _); [|done].
    rewrite prog_bind_eq. destruct (PadEnv.info _ _ _); [|done].
    by intros [= <-].
  - unfold PadEnv.step, PadEnv.method. rewrite prog_bind_eq.
    destruct (dict_mapM (λ _ val, crop s val) action) as [act|e]; [|done].
    rewrite prog_bind_eq. unfold PadEnv.call_env at 1.
    destruct (env_step act (PadEnv.env s)) as [e out] eqn:Hstep. cbn [snd].
    rewrite prog_bind_eq. destruct (PadEnv.observation _ _ _); [|done].
    rewrite prog_bind_eq. destruct (PadEnv.info _ _ _); [|done].
    intros [= <-]. exists act. by rewrite Hstep.
Qed.

End PadEnv_more.

(** ** More on the vectorizer *)
Section VecEnv_more.
Context {A : Type} {Env Kw : Type}.
Variable env_reset : Kw → Env → Env * env_out A.
Variable env_step : dict (ndarray A) → Env → Env * env_out A.
Implicit Types (d first : dict (ndarray A)) (ds : list (dict (ndarray A))).
Implicit Types (s : @VecEnv.self A Env) (out : env_out A) (outs : list (env_out A)).

Lemma list_mapM_Raise {X Y} (f : X → result Y) l e :
  list_mapM f l = Raise e → ∃ x, x ∈ l ∧ f x = Raise e.
Proof.
  induction l as [|x l IH]; simpl; [done|].
  destruct (f x) as [y|e'] eqn:Hf; simpl.
  - destruct (list_mapM f l) as [ys|e'] eqn:Hl; simpl; [done|].
    intros [= ->]. destruct IH as (x' & Hin & Hx'); [done|].
    exists x'. split; [by right|done].
  - intros [= ->]. exists x. split; [left|done].
Qed.

Lemma list_mapM_elem_Raise {X Y} (f : X → result Y) l x e :
  x ∈ l → f x = Raise e → ¬ is_Ok (list_mapM f l).
Proof.
  intros Hin Hf [k Hk]. apply list_mapM_Ok in Hk.
  apply list_elem_of_lookup in Hin as [i Hi].
  destruct (Forall2_lookup_l _ _ _ _ _ Hk Hi) as (y & _ & Hy). congruence.
Qed.

(** The stacked mapping has the keys of the first mapping, in their order,
    and arrays with one entry per mapping. *)
Lemma stack_dicts_keys_dims first ds st :
  VecEnv.stack_dicts first ds = Ok st →
  dict_keys st = dict_keys first
  ∧ Forall (λ ka, ∃ sh, shape ka.2 = length ds :: sh) st.
Proof.
  intros Hst. split; [by eapply dict_mapM_dict_keys|].
  apply dict_mapM_Ok in Hst. apply Forall_lookup. intros j [k w] Hj.
  destruct (Forall2_lookup_r _ _ _ _ _ Hst Hj) as ([k' a0] & _ & _ & Hf).
  simpl in Hf. apply (stack_key_inv (A:=A)) in Hf as (arrs & Harrs & Hw).
  apply np_stack_inv in Hw as (a & _ & _ & ->). simpl.
  exists (shape a). by rewrite (Forall2_length _ _ _ Harrs).
Qed.

Lemma stack_dicts_Raise first ds e :
  VecEnv.stack_dicts first ds = Raise e → e = KeyError ∨ e = ValueError.
Proof.
  intros (k & a0 & _ & Hf)%dict_mapM_Raise.
  destruct (list_mapM (dict_getitem k) ds) as [arrs|e'] eqn:Hm.
  - right. cbn [mbind result_bind] in Hf. unfold np_stack in Hf.
    destruct arrs; [congruence|]. case_decide; congruence.
  - left. cbn [mbind result_bind] in Hf. injection Hf as <-.
    apply list_mapM_Raise in Hm as (d & _ & Hd). unfold dict_getitem in Hd.
    destruct (dict_get k d); congruence.
Qed.

(** X11. [_vectorize_env_outs] returns only for a non-empty list of step
    results (no empty tuple). What it returns has the keys of the first
    result, in their order, for the observation and for the info mapping:
    a key that only a later result has is dropped without an error. Every
    stacked array has one entry per result. *)
Theorem VecEnv_vectorize_returns_only (louts : list (option (env_out A))) v :
  VecEnv._vectorize_env_outs louts = Ok v →
  ∃ first_out rest, louts = Some <$> (first_out :: rest)
    ∧ dict_keys (VecEnv.obs_stacked v) = dict_keys (out_obs first_out)
    ∧ dict_keys (VecEnv.info_stacked v) = dict_keys (out_info first_out)
    ∧ VecEnv.leading_dim v (length louts).
Proof.
  unfold VecEnv._vectorize_env_outs.
  destruct (mapM id louts) as [[|first_out rest]|] eqn:Hm; [done| |done].
  set (outs := first_out :: rest) in *.
  assert (louts = Some <$> outs) as ->
    by (symmetry; by eapply mapM_fmap_Some_inv; [exact Hm|]; intros ?? [= ->]).
  destruct (VecEnv.stack_dicts _ (out_obs <$> outs)) as [obs|] eqn:Hobs; [|done].
  cbn [mbind result_bind].
  assert (np_array (out_reward <$> outs) = np_stack (out_reward <$> outs)) as -> by done.
  destruct (np_stack _) as [reward|] eqn:Hrew; [|done]. cbn [mbind result_bind].
  destruct (VecEnv.stack_dicts _ (out_info <$> outs)) as [inf|] eqn:Hinf; [|done].
  cbn [mbind result_bind]. intros [= <-]. exists first_out, rest.
  apply stack_dicts_keys_dims in Hobs as [Hko Hdo].
  apply stack_dicts_keys_dims in Hinf as [Hki Hdi].
  apply np_stack_inv in Hrew as (a & _ & _ & ->).
  rewrite !length_fmap in *. split; [done|]. split; [done|]. split; [done|].
  split_and!; cbn [VecEnv.obs_stacked VecEnv.reward_stacked VecEnv.done_stacked
                   VecEnv.info_stacked shape]; eauto.
Qed.

Lemma dict_mapM_app_Raise {V W} (f : string → V → result W)
    (pre : dict V) k v (suf : dict V) e :
  Forall (λ kv, is_Ok (f kv.1 kv.2)) pre → f k v = Raise e →
  dict_mapM f (pre ++ (k, v) :: suf) = Raise e.
Proof.
  intros Hpre Hf. induction Hpre as [|[k' v'] pre [w Hw] _ IH].
  - cbn [app dict_mapM]. by rewrite Hf.
  - cbn [app dict_mapM fst snd] in *. rewrite Hw. cbn [mbind result_bind].
    by rewrite IH.
Qed.

(** The arrays that the results hold under a key they all have. *)
Lemma stack_key_arrs (key : string) outs :
  Forall (λ o, is_Some (dict_get key (out_obs o))) outs →
  ∃ arrs, list_mapM (dict_getitem key) (out_obs <$> outs) = Ok arrs
    ∧ Forall2 (λ o b, dict_get key (out_obs o) = Some b) outs arrs.
Proof.
  induction 1 as [|o outs [b Hb] _ (arrs & Hm & Harrs)]; [by exists []|].
  exists (b :: arrs). split; [|by constructor].
  assert (dict_getitem key (out_obs o) = Ok b) as Hgo
    by (unfold dict_getitem; by rewrite Hb).
  rewrite fmap_cons. cbn [list_mapM]. rewrite Hgo.
  cbn [mbind result_bind]. by rewrite Hm.
Qed.

(** A key that every result has, with arrays of one shape, is stacked. *)
Lemma stack_key_one_shape (key : string) outs :
  outs ≠ [] →
  Forall (λ o, is_Some (dict_get key (out_obs o))) outs →
  (∃ sh, Forall (λ o, ∀ b, dict_get key (out_obs o) = Some b → shape b = sh) outs) →
  is_Ok (arrs ← list_mapM (dict_getitem key) (out_obs <$> outs); np_stack arrs).
Proof.
  intros Hne Hall [sh Hsh].
  destruct (stack_key_arrs key outs Hall) as (arrs & -> & Harrs).
  cbn [mbind result_bind].
  assert (Forall (λ b, shape b = sh) arrs) as Hone.
  { eapply Forall2_Forall_r; [exact Harrs|]. eapply Forall_impl; [exact Hsh|].
    intros o Ho b Hb. by apply Ho. }
  destruct arrs as [|a0 arrs].
  { apply Forall2_length in Harrs. by destruct outs. }
  rewrite (np_stack_Ok _ a0); [apply is_Ok_Ok|done|].
  eapply Forall_impl; [exact Hone|]. intros b ->.
  by apply Forall_cons in Hone as [-> _].
Qed.

(** A key that one of the results lacks raises [KeyError], before the
    arrays are stacked. *)
Lemma stack_key_missing (key : string) outs out :
  out ∈ outs → dict_get key (out_obs out) = None →
  (arrs ← list_mapM (dict_getitem key) (out_obs <$> outs); np_stack arrs)
  = Raise KeyError.
Proof.
  intros Hin Hk.
  destruct (list_mapM (dict_getitem key) (out_obs <$> outs)) as [arrs|e] eqn:Hm.
  - exfalso.
    eapply (list_mapM_elem_Raise (dict_getitem key) _ (out_obs out) KeyError);
      [by apply list_elem_of_fmap_2| |by exists arrs].
    unfold dict_getitem. by rewrite Hk.
  - cbn [mbind result_bind]. f_equal.
    apply list_mapM_Raise in Hm as (d & _ & Hd). unfold dict_getitem in Hd.
    destruct (dict_get key d); congruence.
Qed.

(** A key that every result has, with arrays that are not of one shape,
    raises [ValueError] in [np.stack]. *)
Lemma stack_key_shapes (key : string) outs :
  Forall (λ o, is_Some (dict_get key (out_obs o))) outs →
  ¬ (∃ sh, Forall (λ o, ∀ b, dict_get key (out_obs o) = Some b → shape b = sh) outs) →
  (arrs ← list_mapM (dict_getitem key) (out_obs <$> outs); np_stack arrs)
  = Raise ValueError.
Proof.
  intros Hall Hno.
  destruct (stack_key_arrs key outs Hall) as (arrs & -> & Harrs).
  cbn [mbind result_bind]. unfold np_stack.
  destruct arrs as [|a0 arrs]; [done|]. case_decide as Hsh; [|done].
  destruct Hno. exists (shape a0).
  eapply Forall2_Forall_l; [exact Harrs|].
  assert (Forall (λ b, shape b = shape a0) (a0 :: arrs)) as Hone by by constructor.
  eapply Forall_impl; [exact Hone|]. intros b Hb o Ho b' Hb'. congruence.
Qed.

(** X12. When a result lacks a key [k] that the observation of the first
    result has, [_vectorize_env_outs] raises [KeyError] or [ValueError],
    and which one is decided by the first key, in the order of the first
    observation, that cannot be stacked. It is the [KeyError] of [k] when
    every key before [k] is held by all results with arrays of one shape.
    It is [ValueError] when a key before [k] is held by all results with
    arrays of different shapes, the keys before that one being held by all
    results with arrays of one shape. *)
Theorem VecEnv_vectorize_missing_key first_out rest out
    (pre : dict (ndarray A)) k (a : ndarray A) (suf : dict (ndarray A)) :
  let outs := first_out :: rest in
  let has_all (key : string) :=
    Forall (λ o, is_Some (dict_get key (out_obs o))) outs in
  let one_shape (key : string) :=
    ∃ sh, Forall (λ o, ∀ b, dict_get key (out_obs o) = Some b → shape b = sh) outs in
  out ∈ outs →
  out_obs first_out = pre ++ (k, a) :: suf →
  dict_get k (out_obs out) = None →
  (∃ e, VecEnv._vectorize_env_outs (Some <$> outs) = Raise e
        ∧ (e = KeyError ∨ e = ValueError))
  ∧ (Forall (λ kv, has_all kv.1 ∧ one_shape kv.1) pre →
     VecEnv._vectorize_env_outs (Some <$> outs) = Raise KeyError)
  ∧ (∀ pre1 k1 (a1 : ndarray A) suf1,
       pre = pre1 ++ (k1, a1) :: suf1 →
       Forall (λ kv, has_all kv.1 ∧ one_shape kv.1) pre1 →
       has_all k1 → ¬ one_shape k1 →
       VecEnv._vectorize_env_outs (Some <$> outs) = Raise ValueError).
Proof.
  intros outs has_all one_shape Hin Hsplit Hk.
  assert (∀ pre' k' (a' : ndarray A) suf' e,
            out_obs first_out = pre' ++ (k', a') :: suf' →
            Forall (λ kv, has_all kv.1 ∧ one_shape kv.1) pre' →
            (arrs ← list_mapM (dict_getitem k') (out_obs <$> outs); np_stack arrs)
            = Raise e →
            VecEnv._vectorize_env_outs (Some <$> outs) = Raise e) as Hvec.
  { intros pre' k' a' suf' e Hsp Hpre Hf. unfold VecEnv._vectorize_env_outs.
    rewrite mapM_fmap_Some by done. unfold outs at 1. cbv iota beta.
    fold outs. unfold VecEnv.stack_dicts. rewrite Hsp.
    rewrite (dict_mapM_app_Raise _ pre' k' a' suf' e); [done| |exact Hf].
    eapply Forall_impl; [exact Hpre|]. intros [k2 v2] [Hall Hone]. cbn [fst snd].
    by apply stack_key_one_shape. }
  split; [|split].
  - destruct (VecEnv._vectorize_env_outs (Some <$> outs)) as [v|e] eqn:Hv.
    + exfalso. unfold VecEnv._vectorize_env_outs in Hv.
      rewrite mapM_fmap_Some in Hv by done. unfold outs at 1 in Hv.
      cbv iota beta in Hv. fold outs in Hv.
      destruct (VecEnv.stack_dicts (out_obs first_out) (out_obs <$> outs))
        as [obs|] eqn:Hobs; [|done].
      unfold VecEnv.stack_dicts in Hobs.
      apply (dict_mapM_elem_Raise
               (λ key (_ : ndarray A),
                  arrs ← list_mapM (dict_getitem key) (out_obs <$> outs); np_stack arrs)
               (out_obs first_out) k a KeyError);
        [rewrite Hsplit; apply elem_of_app; right; left
        |by eapply stack_key_missing|by exists obs].
    + exists e. split; [done|]. unfold VecEnv._vectorize_env_outs in Hv.
      rewrite mapM_fmap_Some in Hv by done. unfold outs at 1 in Hv.
      cbv iota beta in Hv. fold outs in Hv.
      destruct (VecEnv.stack_dicts (out_obs first_out) (out_obs <$> outs))
        as [obs|e'] eqn:Hobs.
      * exfalso. unfold VecEnv.stack_dicts in Hobs.
        apply (dict_mapM_elem_Raise
                 (λ key (_ : ndarray A),
                    arrs ← list_mapM (dict_getitem key) (out_obs <$> outs);
                    np_stack arrs)
                 (out_obs first_out) k a KeyError);
          [rewrite Hsplit; apply elem_of_app; right; left
          |by eapply stack_key_missing|by exists obs].
      * cbn [mbind result_bind] in Hv. injection Hv as <-.
        by eapply stack_dicts_Raise.
  - intros Hpre. eapply Hvec; [exact Hsplit|exact Hpre|by eapply stack_key_missing].
  - intros pre1 k1 a1 suf1 -> Hpre1 Hall Hno.
    eapply (Hvec pre1 k1 a1 (suf1 ++ (k, a) :: suf)).
    + by rewrite Hsplit, <-app_assoc.
    + exact Hpre1.
    + by apply stack_key_shapes.
Qed.

(** X13. A forced [reset] resets every instance, whatever is cached (it
    works on a fresh vectorizer), and caches the results; when there is at
    least one instance and the results can be stacked, it returns stacked
    arrays with one entry per instance, entry [i] being the result of
    resetting instance [i]. *)
Theorem VecEnv_reset_force s kwargs first_out :
  let rs := env_reset kwargs <$> VecEnv.envs s in
  rs.*2 !! 0 = Some first_out →
  Forall (VecEnv.stackable first_out) rs.*2 →
  Forall VecEnv.wf_out rs.*2 →
  ∃ v, VecEnv.reset env_reset true kwargs s
       = (VecEnv.Self rs.*1 (Some <$> rs.*2), Ok v)
    ∧ VecEnv.leading_dim v (length (VecEnv.envs s))
    ∧ ∀ i e, VecEnv.envs s !! i = Some e →
        VecEnv.entry_of v i (env_reset kwargs e).2.
Proof.
  intros rs H0 Hst Hwf.
  unfold VecEnv.reset, gets, lift, modify. do 2 rewrite prog_bind_eq.
  cbn [VecEnv.envs VecEnv.last_outs]. fold rs.
  destruct (rs.*2) as [|o rest] eqn:Hrs2; [done|]. injection H0 as ->.
  destruct (vectorize_spec first_out rest Hst Hwf) as (v & -> & Hdim & Hentry).
  exists v. split; [done|]. split.
  - replace (length (VecEnv.envs s)) with (length (first_out :: rest)); [done|].
    subst rs. by rewrite <-Hrs2, !length_fmap.
  - intros i e He. apply Hentry. subst rs.
    by rewrite <-Hrs2, !list_lookup_fmap, He.
Qed.

Lemma for_each_lengths kwargs (l : list nat) s :
  let s' := (VecEnv.for_each (VecEnv.reset_if_done env_reset kwargs) l s).1 in
  length (VecEnv.envs s') = length (VecEnv.envs s)
  ∧ length (VecEnv.last_outs s') = length (VecEnv.last_outs s).
Proof.
  revert s. induction l as [|i l IH]; intros s; [done|].
  cbn [VecEnv.for_each]. rewrite prog_bind_eq.
  assert (length (VecEnv.envs (VecEnv.reset_if_done env_reset kwargs i s).1)
            = length (VecEnv.envs s)
          ∧ length (VecEnv.last_outs (VecEnv.reset_if_done env_reset kwargs i s).1)
            = length (VecEnv.last_outs s)) as [He Hl].
  { unfold VecEnv.reset_if_done.
    destruct (VecEnv.last_outs s !! i) as [[out|]|]; [|done..].
    destruct (out_done out); [|done].
    destruct (VecEnv.envs s !! i) as [e|]; [|done].
    destruct (env_reset kwargs e) as [e' out']. cbn. by rewrite !length_insert. }
  destruct (VecEnv.reset_if_done env_reset kwargs i s) as [s1 [[]|e]].
  - cbn [fst] in *. destruct (IH s1) as [IHe IHl]. split; congruence.
  - done.
Qed.

(** X14. The vectorizer always holds one cached result (possibly the empty
    tuple) per instance, and its number of instances never changes: this
    holds after [__init__] and is kept by [step] and by [reset], forced or
    not, whether the call returns or raises. *)
Theorem VecEnv_cache_length_invariant s (es : list Env) action force kwargs :
  length (VecEnv.last_outs (@VecEnv.__init__ A Env es)) = length es
  ∧ (length (VecEnv.last_outs s) = length (VecEnv.envs s) →
     let s1 := (VecEnv.step env_step action s).1 in
     let s2 := (VecEnv.reset env_reset force kwargs s).1 in
     length (VecEnv.envs s1) = length (VecEnv.envs s)
     ∧ length (VecEnv.last_outs s1) = length (VecEnv.envs s1)
     ∧ length (VecEnv.envs s2) = length (VecEnv.envs s)
     ∧ length (VecEnv.last_outs s2) = length (VecEnv.envs s2)).
Proof.
  split; [by cbn; rewrite length_fmap, length_seq|].
  intros Hinv s1 s2.
  assert (length (VecEnv.envs s1) = length (VecEnv.envs s)
          ∧ length (VecEnv.last_outs s1) = length (VecEnv.envs s1)) as [H1 H2].
  { subst s1. unfold VecEnv.step, gets, lift, modify. do 2 rewrite prog_bind_eq.
    destruct (list_mapM _ (seq 0 _)) as [actions|e] eqn:Hact; [|done].
    do 2 rewrite prog_bind_eq. cbn [VecEnv.last_outs VecEnv.envs fst].
    apply list_mapM_Ok, Forall2_length in Hact. rewrite length_seq in Hact.
    rewrite !length_fmap, length_zip_with. lia. }
  assert (length (VecEnv.envs s2) = length (VecEnv.envs s)
          ∧ length (VecEnv.last_outs s2) = length (VecEnv.envs s2)) as [H3 H4].
  { subst s2. unfold VecEnv.reset, gets, lift, modify. destruct force.
    - do 2 rewrite prog_bind_eq. cbn [VecEnv.last_outs VecEnv.envs fst].
      by rewrite !length_fmap.
    - do 2 rewrite prog_bind_eq.
      pose proof (for_each_lengths kwargs (seq 0 (length (VecEnv.envs s))) s)
        as [He Hl].
      destruct (VecEnv.for_each _ _ s) as [s' [[]|e]]; cbn [fst] in *.
      + rewrite prog_bind_eq. cbn [fst]. split; congruence.
      + split; congruence. }
  done.
Qed.

Lemma slice_action_Raise (action : dict (ndarray A)) i e :
  VecEnv.slice_action action i = Raise e → e = IndexError.
Proof.
  intros (k & v & _ & Hf)%dict_mapM_Raise. unfold nd_index in Hf.
  destruct (shape v); [congruence|]. case_decide; congruence.
Qed.

(** X15. When an array of the batched action has no leading axis, or
    fewer entries along it than there are instances, [step] raises
    [IndexError] while it slices the action, before any instance is
    stepped: the vectorizer is left as it was. *)
Theorem VecEnv_step_short_batch s (action : dict (ndarray A)) k v :
  (k, v) ∈ action →
  (shape v = [] ∧ VecEnv.envs s ≠ []
   ∨ ∃ n sh, shape v = n :: sh ∧ n < length (VecEnv.envs s)) →
  VecEnv.step env_step action s = (s, Raise IndexError).
Proof.
  intros Hin Hshort. unfold VecEnv.step, gets, lift. do 2 rewrite prog_bind_eq.
  destruct (list_mapM _ (seq 0 _)) as [actions|e] eqn:Hact.
  - exfalso.
    assert (∃ i, i < length (VecEnv.envs s) ∧ nd_index v i = Raise IndexError)
      as (i & Hi & Hv).
    { destruct Hshort as [[Hs Hne]|(n & sh & Hs & Hn)].
      - exists 0. split; [destruct (VecEnv.envs s); [done|simpl; lia]|].
        unfold nd_index. by rewrite Hs.
      - exists n. split; [done|]. unfold nd_index. rewrite Hs.
        by rewrite decide_False by lia. }
    destruct (VecEnv.slice_action action i) as [a|e] eqn:Ha.
    + destruct (dict_mapM_elem_Raise (λ _ val, nd_index val i) action k v
                  IndexError Hin Hv). by exists a.
    + apply (list_mapM_elem_Raise (VecEnv.slice_action action)
               (seq 0 (length (VecEnv.envs s))) i e);
        [apply elem_of_seq; lia|done|by exists actions].
  - do 2 f_equal. apply list_mapM_Raise in Hact as (i & _ & Hi).
    by eapply slice_action_Raise.
Qed.

(** X16. Once the action is sliced, [step] steps every instance and caches
    the results before it stacks them: what it returns is the stack of the
    cache, and when stacking raises, the instances have been stepped and
    the new results are cached all the same. *)
Theorem VecEnv_step_caches_before_stacking s (action : dict (ndarray A)) rs :
  VecEnv.steps_alone env_step action (VecEnv.envs s) = Ok rs →
  VecEnv.step env_step action s
  = (VecEnv.Self rs.*1 (Some <$> rs.*2),
     VecEnv._vectorize_env_outs (Some <$> rs.*2)).
Proof.
  intros (actions & Hact & ->)%steps_alone_inv.
  unfold VecEnv.step, gets, lift, modify.
  do 2 rewrite prog_bind_eq. rewrite Hact.
  do 2 rewrite prog_bind_eq. done.
Qed.

(** X17. A [reset] without [force] after a [step] resets the instances
    that the step reported done and keeps the others with the result of the
    step: the cache the step leaves has a result for every instance. *)
Theorem VecEnv_step_then_reset s (action : dict (ndarray A)) kwargs rs :
  VecEnv.steps_alone env_step action (VecEnv.envs s) = Ok rs →
  let s1 := (VecEnv.step env_step action s).1 in
  let rs' := zip_with (VecEnv.reset_entry env_reset kwargs) rs.*1 rs.*2 in
  VecEnv.reset env_reset false kwargs s1
  = (VecEnv.Self rs'.*1 (Some <$> rs'.*2),
     VecEnv._vectorize_env_outs (Some <$> rs'.*2))
  ∧ ∀ i e out, rs !! i = Some (e, out) →
      rs' !! i = Some (if out_done out then env_reset kwargs e else (e, out)).
Proof.
  intros Halone s1 rs'.
  assert (s1 = VecEnv.Self rs.*1 (Some <$> rs.*2)) as ->.
  { subst s1. apply steps_alone_inv in Halone as (actions & Hact & ->).
    unfold VecEnv.step, gets, lift, modify.
    do 2 rewrite prog_bind_eq. rewrite Hact. by do 2 rewrite prog_bind_eq. }
  split.
  - unfold VecEnv.reset, gets, lift. do 2 rewrite prog_bind_eq.
    cbn [VecEnv.envs].
    rewrite (for_each_reset_if_done env_reset kwargs _ 0)
      by (rewrite ?length_fmap; done).
    rewrite !drop_0, !take_0. cbn [app]. fold rs'. by rewrite prog_bind_eq.
  - intros i e out Hi. subst rs'.
    rewrite lookup_zip_with, !list_lookup_fmap, Hi. cbn.
    unfold VecEnv.reset_entry. by destruct (out_done out).
Qed.

End VecEnv_more.

(** ** More on the result flattener *)
Section DictEnv_more.
Context {Obs Reward Done Info : Type} {Env Kw Action : Type}.
Variable env_reset : Kw → Env → Env * result (Obs * Reward * Done * dict Info).
Variable env_step : Action → Env → Env * result (Obs * Reward * Done * dict Info).
Implicit Types (info : dict Info).

Lemma flatten_Ok (obs : Obs) (reward : Reward) (done : Done) info m :
  DictEnv._dict_env_out (obs, reward, done, info) = Ok m →
  m = [("obs", DictEnv.VObs obs); ("reward", DictEnv.VReward reward);
       ("done", DictEnv.VDone done)] ++ dict_map DictEnv.VInfo info
  ∧ dict_get "obs" info = None ∧ dict_get "reward" info = None
  ∧ dict_get "done" info = None.
Proof.
  unfold DictEnv._dict_env_out.
  destruct (dict_mem "obs" info) eqn:H1; [done|].
  destruct (dict_mem "reward" info) eqn:H2; [done|].
  destruct (dict_mem "done" info) eqn:H3; [done|].
  apply dict_mem_false in H1, H2, H3.
  cbn [assert negb mbind result_bind]. by intros [= <-].
Qed.

Lemma flatten_Raise (t : Obs * Reward * Done * dict Info) e :
  DictEnv._dict_env_out t = Raise e → e = AssertionError.
Proof.
  destruct t as [[[obs reward] done] info]. unfold DictEnv._dict_env_out.
  destruct (dict_mem "obs" info); [by intros [= <-]|].
  destruct (dict_mem "reward" info); [by intros [= <-]|].
  by destruct (dict_mem "done" info); [intros [= <-]|].
Qed.

Lemma dict_get_None_keys {V} (k : string) (d : dict V) :
  dict_get k d = None → k ∉ dict_keys d.
Proof.
  induction d as [|[k' v] d IH]; simpl; [intros _; apply not_elem_of_nil|].
  case_decide; [done|]. intros Hd. apply not_elem_of_cons. auto.
Qed.

(** X18. The mapping the flattener returns lists the keys [obs], [reward],
    [done] first and then the keys of [info] in their order, so that it has
    no key twice when [info] has none twice; and it determines the result
    it was built from: two results with the same flattened mapping are
    equal. *)
Theorem DictEnv_flatten_keys_injective
    (obs : Obs) (reward : Reward) (done : Done) info m :
  DictEnv._dict_env_out (obs, reward, done, info) = Ok m →
  dict_keys m = ["obs"; "reward"; "done"] ++ dict_keys info
  ∧ (NoDup (dict_keys info) → NoDup (dict_keys m))
  ∧ ∀ t, DictEnv._dict_env_out t = Ok m → t = (obs, reward, done, info).
Proof.
  intros (-> & H1 & H2 & H3)%flatten_Ok.
  assert (dict_keys (dict_map (@DictEnv.VInfo Obs Reward Done Info) info)
          = dict_keys info) as Hkeys.
  { unfold dict_keys, dict_map. rewrite <-list_fmap_compose.
    by apply list_fmap_ext; intros ? [??]. }
  split; [|split].
  - unfold dict_keys in *. rewrite fmap_app. by rewrite Hkeys.
  - intros Hnd. unfold dict_keys in *. rewrite fmap_app, Hkeys.
    apply dict_get_None_keys in H1, H2, H3. unfold dict_keys in *.
    cbn [fmap list_fmap fst app].
    repeat (apply NoDup_cons; split); try done;
      rewrite ?not_elem_of_cons; by repeat split.
  - intros [[[obs' reward'] done'] info'] (Hm & _)%flatten_Ok.
    injection Hm as -> -> -> Hinfo. do 3 f_equal.
    clear H1 H2 H3 Hkeys. revert info' Hinfo. unfold dict_map.
    induction info as [|[k v] info IH]; intros [|[k' v'] info']; try done.
    cbn. intros [= -> -> ?]. f_equal. by apply IH.
Qed.

(** X19. [step] and [reset] of the flattener always leave the inner
    environment as the inner call left it. They return a mapping exactly
    when the inner call returns a result whose [info] has none of the keys
    [obs], [reward], [done]; an exception of the inner call is passed on,
    and a reserved key raises [AssertionError] after the inner environment
    has stepped. *)
Theorem DictEnv_step_spec (action : Action) (kwargs : Kw) (e : Env) :
  let P (call : Env → Env * result (Obs * Reward * Done * dict Info))
        (wrapped : prog Env (dict DictEnv.value)) :=
    (wrapped e).1 = (call e).1
    ∧ (is_Ok (wrapped e).2 ↔
       ∃ obs reward done info, (call e).2 = Ok (obs, reward, done, info)
         ∧ dict_get "obs" info = None ∧ dict_get "reward" info = None
         ∧ dict_get "done" info = None)
    ∧ (∀ ex, (call e).2 = Raise ex → (wrapped e).2 = Raise ex)
    ∧ (∀ t, (call e).2 = Ok t → ¬ is_Ok (wrapped e).2 →
         (wrapped e).2 = Raise AssertionError) in
  P (env_step action) (DictEnv.step env_step action)
  ∧ P (env_reset kwargs) (DictEnv.reset env_reset kwargs).
Proof.
  intros P.
  assert (∀ call : Env → Env * result (Obs * Reward * Done * dict Info),
            P call (λ e, let '(e', r) := call e in
                         (e', r ≫= DictEnv._dict_env_out))) as HP.
  { intros call. unfold P. destruct (call e) as [e' [t|ex]]; cbn [fst snd].
    - split; [done|]. split; [|split]; [|done|].
      + split.
        * intros [m Hm]. destruct t as [[[obs reward] done] info].
          apply flatten_Ok in Hm as (_ & ? & ? & ?). by exists obs, reward, done, info.
        * intros (obs & reward & done & info & [= ->] & H1 & H2 & H3).
          cbn [mbind result_bind]. unfold DictEnv._dict_env_out.
          rewrite (proj2 (dict_mem_false _ _) H1), (proj2 (dict_mem_false _ _) H2),
            (proj2 (dict_mem_false _ _) H3). by eexists.
      + intros t' [= <-] Hno. cbn [mbind result_bind] in *.
        destruct (DictEnv._dict_env_out t) as [m|ex] eqn:Hm.
        * destruct Hno. by exists m.
        * f_equal. by eapply flatten_Raise.
    - split; [done|]. split; [|split]; [|by intros ? [= ->]|done].
      split; [by intros [? ?]|]. by intros (? & ? & ? & ? & ? & _). }
  split; apply HP.
Qed.

End DictEnv_more.

(** ** More on the telemetry collector *)
Section LoggingEnv_more.
Context {A : Type} `{!Num A} {Env Kw City : Type}.
Variable game_state : Env → @LoggingEnv.Game City.
Variable env_reset : Kw → Env → Env * env_out A.
Variable env_step : dict (ndarray A) → Env → Env * env_out A.
Implicit Types (s : @LoggingEnv.self A Env) (inf : dict (ndarray A)).

Lemma info_raises inf s : LoggingEnv.info game_state inf s = (s, Raise KeyError).
Proof. unfold LoggingEnv.info, gets, lift. by do 3 rewrite prog_bind_eq. Qed.

(** X20. The running maximum never moves: it is the pair of ones of
    [__init__] after every [step] and every [reset]. Both calls raise
    [KeyError] only after the inner environment has stepped, respectively
    been reset, and the collector keeps the inner environment as that call
    left it. *)
Theorem LoggingEnv_peak_stays_ones (action : dict (ndarray A)) (kwargs : Kw) s :
  let ones := NDArray [2] [num_one; num_one] in
  LoggingEnv.peak_city_tile_count s = ones →
  LoggingEnv.step game_state env_step action s
  = (LoggingEnv.Self (env_step action (LoggingEnv.env s)).1 ones, Raise KeyError)
  ∧ LoggingEnv.reset game_state env_reset kwargs s
  = (LoggingEnv.Self (env_reset kwargs (LoggingEnv.env s)).1 ones, Raise KeyError).
Proof.
  intros ones Hpeak. destruct s as [e peak]. cbn [LoggingEnv.peak_city_tile_count] in Hpeak.
  subst peak. split.
  - unfold LoggingEnv.step, LoggingEnv.call_env, LoggingEnv.set_env.
    rewrite prog_bind_eq. cbn [LoggingEnv.env LoggingEnv.peak_city_tile_count].
    destruct (env_step action e) as [e' out]. cbn [fst snd].
    by rewrite prog_bind_eq, info_raises.
  - unfold LoggingEnv.reset, LoggingEnv.call_env, LoggingEnv.set_env, gets, lift, modify.
    rewrite prog_bind_eq. cbn [LoggingEnv.env LoggingEnv.peak_city_tile_count].
    destruct (env_reset kwargs e) as [e' out]. cbn [fst snd].
    do 2 rewrite prog_bind_eq. cbn [LoggingEnv.peak_city_tile_count].
    rewrite nd_setitem_All by done.
    do 2 rewrite prog_bind_eq. by rewrite info_raises.
Qed.

(** X21. The values logged in lines 73-80: [step] is a one-element list,
    every other entry has one number per player, and the numbers under
    [workers] and [carts] count the units of the player that answer
    [is_worker], respectively [is_cart]. As arrays (line 83) the entries
    have shape [(1,)] and [(number of players,)]. *)
Theorem LoggingEnv_logs_per_player (g : @LoggingEnv.Game City) :
  let logs := @LoggingEnv.logs A City g in
  dict_keys logs
  = ["step"; "city_tiles"; "separate_cities"; "workers"; "carts"; "research_points"]
  ∧ (∀ k v, dict_get k logs = Some v →
       shape (LoggingEnv.np_array_val v)
       = [if decide (k = "step") then 1 else length (LoggingEnv.players g)])
  ∧ (∀ i p, LoggingEnv.players g !! i = Some p →
       ∃ ws cs, dict_get "workers" logs = Some (LoggingEnv.Ints ws)
         ∧ dict_get "carts" logs = Some (LoggingEnv.Ints cs)
         ∧ ws !! i = Some (Z.of_nat (length (filter (λ u, LoggingEnv.is_worker u = true)
                                               (LoggingEnv.units p))))
         ∧ cs !! i = Some (Z.of_nat (length (filter (λ u, LoggingEnv.is_cart u = true)
                                               (LoggingEnv.units p))))).
Proof.
  intros logs. split; [done|]. split.
  - intros k v. subst logs. unfold LoggingEnv.logs. cbn [dict_get].
    repeat (case_decide;
              [intros [= <-]; cbn [LoggingEnv.np_array_val shape];
               by rewrite ?length_fmap|]).
    done.
  - intros i p Hp. eexists _, _. split; [done|]. split; [done|].
    rewrite !list_lookup_fmap, Hp. cbn.
    assert (∀ (f : LoggingEnv.Unit → bool) (us : list LoggingEnv.Unit),
              LoggingEnv.sum_bools (f <$> us)
              = Z.of_nat (length (filter (λ u, f u = true) us))) as Hcount.
    { intros f us. induction us as [|u us IH]; [done|].
      cbn [fmap list_fmap LoggingEnv.sum_bools foldr].
      fold (LoggingEnv.sum_bools (f <$> us)). fold (f <$> us). rewrite IH.
      destruct (f u) eqn:Hf.
      - rewrite filter_cons_True by done. simpl length. simpl Z.b2z. lia.
      - rewrite filter_cons_False by (by rewrite Hf). simpl Z.b2z. lia. }
    by rewrite !Hcount.
Qed.

End LoggingEnv_more.

(** ** The mask of a fresh padder *)
Section PadEnv_fresh.
Context {A : Type} `{!Num A} {Env : Type}.
Variable board_dims : Env → nat * nat.

Lemma nd_index_map {B C} (f : B → C) (a : ndarray B) i :
  nd_index (nd_map f a) i = nd_map f <$> nd_index a i.
Proof.
  unfold nd_index, nd_map. cbn [shape data]. destruct (shape a) as [|n sh]; [done|].
  case_decide; [|done]. cbn [fmap result_fmap shape data].
  by rewrite fmap_take, fmap_drop.
Qed.

Lemma nd_item_map {B C} (f : B → C) (a : ndarray B) idx :
  nd_item (nd_map f a) idx = f <$> nd_item a idx.
Proof.
  revert a. induction idx as [|i idx IH]; intros a.
  - destruct a as [[|??] [|?[|??]]]; done.
  - cbn [nd_item]. rewrite nd_index_map.
    destruct (nd_index a i) as [b|]; [|done]. apply IH.
Qed.

(** X22. [__init__] never raises, also for a board that is larger than
    the maximum size, and keeps the environment and the maximum size it is
    given. Until the first [reset], every mapping [info] returns reports
    under [input_mask] an array of shape [(1, rows, cols)] of the maximum
    size that is 1 exactly on the cells below the board dimensions and 0
    elsewhere; it returns one for the empty mapping. *)
Theorem PadEnv_init_then_info (e : Env) (max : nat * nat) :
  ∃ s, PadEnv.__init__ board_dims e max = Ok s
    ∧ PadEnv.env s = e ∧ PadEnv.max_board_size s = max
    ∧ is_Ok (PadEnv.info (A:=A) board_dims s [])
    ∧ ∀ (inf out : dict (ndarray A)), PadEnv.info board_dims s inf = Ok out →
        ∃ m, dict_get "input_mask" out = Some m
          ∧ shape m = [1; max.1; max.2]
          ∧ ∀ x y, x < max.1 → y < max.2 →
              nd_item m [0; x; y]
              = Ok (num_of_bool
                      (bool_decide (x < (board_dims e).1 ∧ y < (board_dims e).2))).
Proof.
  destruct (PadEnv_init_input_mask board_dims e max)
    as (s & Hs & He & Hmax & [Hsh _] & Hmask).
  exists s. split; [done|]. split; [done|]. split; [done|]. split; [by eexists|].
  intros inf out. unfold PadEnv.info.
  destruct (dict_mapM _ inf) as [inf'|]; [|done]. cbn [mbind result_bind].
  destruct (dict_mem "input_mask" inf'); [done|].
  cbn [negb assert mbind result_bind]. intros [= <-].
  exists (nd_map num_of_bool (PadEnv.input_mask s)). split; [|split].
  - rewrite dict_get_set. by rewrite decide_True.
  - cbn [nd_map shape]. by rewrite Hsh, Hmax.
  - intros x y Hx Hy. by rewrite nd_item_map, Hmask.
Qed.

End PadEnv_fresh.

(** ** One size for every board *)
Section PadEnv_sizes.
Context {A : Type} `{!Num A} {Env : Type}.
Variable board_dims : Env → nat * nat.
Variable env_step : dict (ndarray A) → Env → Env * env_out A.
Implicit Types (s : @PadEnv.self Env).

(** X23. Whatever [step] returns has the observation keys of the inner
    step, made on the cropped action, in their order, and every
    observation whose last two axes are the board of the environment after
    that step comes out with the maximum board size in their place,
    whatever the size of the board. *)
Theorem PadEnv_step_obs_max_size (action : dict (ndarray A)) s out :
  (PadEnv.step board_dims env_step action s).2 = Ok out →
  ∃ act, dict_mapM (λ _ val, PadEnv.crop board_dims s val) action = Ok act
    ∧ dict_keys (out_obs out) = dict_keys (out_obs (env_step act (PadEnv.env s)).2)
    ∧ ∀ k v a b,
        dict_get k (out_obs (env_step act (PadEnv.env s)).2) = Some v →
        shape v = [a; b; (board_dims (env_step act (PadEnv.env s)).1).1;
                         (board_dims (env_step act (PadEnv.env s)).1).2] →
        ∃ p, dict_get k (out_obs out) = Some p
          ∧ shape p = [a; b; (PadEnv.max_board_size s).1; (PadEnv.max_board_size s).2].
Proof.
  unfold PadEnv.step, PadEnv.method. rewrite prog_bind_eq.
  destruct (dict_mapM (λ _ val, PadEnv.crop board_dims s val) action)
    as [act|e]; [|done].
  rewrite prog_bind_eq. unfold PadEnv.call_env at 1.
  destruct (env_step act (PadEnv.env s)) as [e inner] eqn:Hstep. cbn [fst snd].
  rewrite prog_bind_eq.
  destruct (PadEnv.observation board_dims (PadEnv.set_env e s) (out_obs inner))
    as [obs|] eqn:Hobs; [|done].
  rewrite prog_bind_eq. destruct (PadEnv.info _ _ _); [|done].
  intros [= <-]. exists act. split; [done|]. rewrite Hstep. cbn [out_obs fst snd].
  unfold PadEnv.observation in Hobs. split.
  - by eapply dict_mapM_dict_keys.
  - intros k v a b Hk Hs.
    pose proof (dict_get_mapM _ _ _ k Hobs) as Hkv. rewrite Hk in Hkv.
    destruct Hkv as (p & Hp & Hget). exists p. split; [done|].
    destruct (_pad_is_Ok_inv board_dims (PadEnv.set_env e s) v (ex_intro _ _ Hp))
      as (Hnd & Hr & Hc).
    rewrite _pad_Ok in Hp by done. injection Hp as <-. cbn [shape]. rewrite Hs.
    apply (end_pads_shape board_dims (PadEnv.set_env e s) a b Hr Hc).
Qed.

End PadEnv_sizes.

(** ** The further properties on the sample environments *)

Lemma PadEnv_pad_returns_iff_witness :
  is_Ok (PadEnv._pad id Sample.small_padder Sample.small_board)
  ∧ PadEnv._pad id Sample.small_padder (NDArray [2; 2] [1; 2; 3; 4]%Z)
    = Raise ValueError.
Proof.
  split.
  - apply (proj2 (proj1 (PadEnv_pad_returns_iff id Sample.small_padder
                           Sample.small_board))).
    split; [reflexivity|split; simpl; lia].
  - apply (proj2 (PadEnv_pad_returns_iff id Sample.small_padder
                    (NDArray [2; 2] [1; 2; 3; 4]%Z))).
    intros Hok.
    apply (proj1 (proj1 (PadEnv_pad_returns_iff id Sample.small_padder
                           (NDArray [2; 2] [1; 2; 3; 4]%Z)))) in Hok.
    destruct Hok as [Hnd _]. discriminate Hnd.
Defined.

Lemma PadEnv_pad_fixed_width_witness :
  ∃ p, PadEnv._pad id Sample.small_padder (NDArray [1; 1; 1; 3] [5; 6; 7]%Z) = Ok p
    ∧ shape p = [1; 1; 2; 5]
    ∧ nd_item p [0; 0; 0; 2] = Ok 7%Z
    ∧ nd_item p [0; 0; 1; 0] = Ok 0%Z.
Proof.
  destruct (PadEnv_pad_fixed_width id Sample.small_padder
              (NDArray [1; 1; 1; 3] [5; 6; 7]%Z) 1 1 1 3)
    as (p & Hp & Hsh & _ & Hitem); [reflexivity|reflexivity|simpl; lia|simpl; lia|].
  exists p. split; [exact Hp|]. split; [exact Hsh|]. split.
  - rewrite Hitem by (rewrite Hsh; repeat constructor). reflexivity.
  - rewrite Hitem by (rewrite Hsh; repeat constructor). reflexivity.
Defined.

Lemma PadEnv_observation_spec_witness :
  (∃ out, PadEnv.observation id Sample.small_padder [("tiles", Sample.small_board)]
          = Ok out
     ∧ dict_keys out = ["tiles"])
  ∧ PadEnv.observation id Sample.small_padder
      [("tiles", Sample.small_board); ("turn", NDArray [1] [5%Z])]
    = Raise ValueError.
Proof.
  split.
  - destruct (proj1 (PadEnv_observation_spec id Sample.small_padder
                       [("tiles", Sample.small_board)]))
      as (out & Hout & Hkeys & _); [simpl; lia|simpl; lia|repeat constructor|].
    exists out. split; [exact Hout|exact Hkeys].
  - apply (proj2 (PadEnv_observation_spec id Sample.small_padder
                    [("tiles", Sample.small_board); ("turn", NDArray [1] [5%Z])])
             "turn" (NDArray [1] [5%Z])); [right; left|simpl; lia].
Defined.

Lemma PadEnv_info_returns_iff_witness :
  ∃ out, PadEnv.info id Sample.small_padder [("turn", NDArray [1] [5%Z])] = Ok out
    ∧ dict_keys out = ["turn"; "input_mask"].
Proof.
  destruct (proj2 (proj1 (PadEnv_info_returns_iff id Sample.small_padder
                            [("turn", NDArray [1] [5%Z])]))) as [out Hout].
  { split; [reflexivity|]. intros k v Hin Ht.
    apply elem_of_cons in Hin as [[= -> ->]|Hin]; [discriminate Ht|].
    by apply elem_of_nil in Hin. }
  exists out. split; [exact Hout|].
  exact (proj1 (proj2 (PadEnv_info_returns_iff id Sample.small_padder
                         [("turn", NDArray [1] [5%Z])]) out Hout)).
Defined.

Lemma PadEnv_crop_spec_witness :
  PadEnv.crop id Sample.small_padder (NDArray [3] [1; 2; 3]%Z) = Raise IndexError
  ∧ ∃ cr, PadEnv.crop id Sample.small_padder
            (NDArray [1; 3; 3] [1; 2; 3; 4; 5; 6; 7; 8; 9]%Z) = Ok cr
      ∧ shape cr = [1; 2; 2]
      ∧ nd_item cr [0; 1; 1] = Ok 5%Z.
Proof.
  split.
  - apply (proj1 (PadEnv_crop_spec id Sample.small_padder (NDArray [3] [1; 2; 3]%Z))).
    simpl; lia.
  - destruct (proj2 (PadEnv_crop_spec id Sample.small_padder
                       (NDArray [1; 3; 3] [1; 2; 3; 4; 5; 6; 7; 8; 9]%Z))
                [1] 3 3 eq_refl) as (cr & Hcr & Hsh & Hrest).
    destruct Hrest as (_ & Hitem & _); [reflexivity|].
    exists cr. split; [exact Hcr|]. split; [exact Hsh|].
    rewrite Hitem by (rewrite Hsh; simpl; repeat constructor). reflexivity.
Defined.

Lemma PadEnv_step_unpads_action_witness :
  ∃ padded,
    PadEnv.observation id Sample.small_padder [("tiles", Sample.small_board)] = Ok padded
    ∧ PadEnv.step id Sample.board_step padded Sample.small_padder
      = PadEnv.step id Sample.board_step [("tiles", Sample.small_board)]
          Sample.small_padder.
Proof.
  eexists. split; [vm_compute; reflexivity|].
  destruct (PadEnv_step_unpads_action id Sample.board_step Sample.small_padder
              [("tiles", Sample.small_board)]
              [("tiles", NDArray [1; 1; 3; 4] [1; 2; 0; 0; 3; 4; 0; 0; 0; 0; 0; 0]%Z)])
    as [Hstep _]; [|reflexivity|exact Hstep].
  repeat constructor. exists 1, 1. reflexivity.
Defined.

Lemma PadEnv_step_few_axes_witness :
  PadEnv.step id Sample.board_step [("move", NDArray [2] [1; 2]%Z)] Sample.small_padder
  = (Sample.small_padder, Raise IndexError).
Proof.
  apply (PadEnv_step_few_axes id Sample.board_step Sample.small_padder
           [("move", NDArray [2] [1; 2]%Z)] "move" (NDArray [2] [1; 2]%Z));
    [left|simpl; lia].
Defined.

Lemma PadEnv_mask_invariant_witness :
  PadEnv.mask_ok (PadEnv.reset id Sample.board_reset (2, 2) Sample.small_padder).1
  ∧ PadEnv.input_mask (PadEnv.step id Sample.board_step [] Sample.small_padder).1
    = PadEnv.input_mask Sample.small_padder.
Proof.
  pose proof (PadEnv_mask_invariant id Sample.board_reset Sample.board_step (2, 2) []
                Sample.small_padder (conj eq_refl eq_refl)) as H.
  cbv zeta in H. destruct H as (H1 & _ & _ & _ & H5).
  split; [exact H1|exact H5].
Defined.

Lemma PadEnv_reset_full_height_raises_witness :
  PadEnv.reset id Sample.board_reset (3, 4) Sample.small_padder
  = (PadEnv.Self (3, 4) (3, 4) (np_full [1; 3; 4] false), Raise IndexError).
Proof.
  apply (PadEnv_reset_full_height_raises id Sample.board_reset (3, 4)
           Sample.small_padder); [split; reflexivity|simpl; lia].
Defined.

Lemma PadEnv_passes_reward_done_witness :
  ∃ out, (PadEnv.reset id Sample.board_reset (2, 2) Sample.small_padder).2 = Ok out
    ∧ out_reward out = NDArray [] [0%Z]
    ∧ out_done out = false.
Proof.
  eexists. split; [vm_compute; reflexivity|].
  destruct (proj1 (PadEnv_passes_reward_done id Sample.board_reset Sample.board_step
                     (2, 2) [] Sample.small_padder _) eq_refl) as [Hr Hd].
  split; [exact Hr|exact Hd].
Defined.

Lemma VecEnv_vectorize_returns_only_witness :
  ∃ v, VecEnv._vectorize_env_outs (VecEnv.last_outs Sample.vec) = Ok v
    ∧ dict_keys (VecEnv.obs_stacked v) = ["move"]
    ∧ VecEnv.leading_dim v 2.
Proof.
  eexists. split; [vm_compute; reflexivity|].
  destruct (VecEnv_vectorize_returns_only (VecEnv.last_outs Sample.vec) _ eq_refl)
    as (first_out & rest & Hl & Hkeys & _ & Hdim).
  injection Hl as <- _. split; [exact Hkeys|exact Hdim].
Defined.

Lemma VecEnv_vectorize_missing_key_witness :
  VecEnv._vectorize_env_outs
    [ Some (Sample.counter_out [("move", NDArray [1] [1%Z])] 1);
      Some (Sample.counter_out [("jump", NDArray [1] [1%Z])] 1) ]
  = Raise KeyError
  ∧ VecEnv._vectorize_env_outs
      [ Some (Sample.counter_out
                [("tiles", NDArray [1] [1%Z]); ("move", NDArray [1] [1%Z])] 1);
        Some (Sample.counter_out [("tiles", NDArray [2] [1; 2]%Z)] 1) ]
    = Raise ValueError.
Proof.
  split.
  - pose proof (VecEnv_vectorize_missing_key
                  (Sample.counter_out [("move", NDArray [1] [1%Z])] 1)
                  [Sample.counter_out [("jump", NDArray [1] [1%Z])] 1]
                  (Sample.counter_out [("jump", NDArray [1] [1%Z])] 1)
                  [] "move" (NDArray [1] [1%Z]) []) as H.
    cbv zeta beta in H.
    destruct H as (_ & H & _); [right; left|reflexivity|reflexivity|].
    apply H. constructor.
  - pose proof (VecEnv_vectorize_missing_key
                  (Sample.counter_out
                     [("tiles", NDArray [1] [1%Z]); ("move", NDArray [1] [1%Z])] 1)
                  [Sample.counter_out [("tiles", NDArray [2] [1; 2]%Z)] 1]
                  (Sample.counter_out [("tiles", NDArray [2] [1; 2]%Z)] 1)
                  [("tiles", NDArray [1] [1%Z])] "move" (NDArray [1] [1%Z]) []) as H.
    cbv zeta beta in H.
    destruct H as (_ & _ & H); [right; left|reflexivity|reflexivity|].
    apply (H [] "tiles" (NDArray [1] [1%Z]) []); [reflexivity|constructor| |].
    + repeat constructor; eexists; reflexivity.
    + intros [sh Hsh]. apply Forall_cons in Hsh as [H1 Hsh].
      apply Forall_cons in Hsh as [H2 _].
      specialize (H1 _ eq_refl). specialize (H2 _ eq_refl).
      rewrite <-H2 in H1. discriminate H1.
Defined.

Lemma VecEnv_reset_force_witness :
  ∃ v, VecEnv.reset Sample.counter_reset true tt (VecEnv.__init__ [5; 6])
       = (VecEnv.Self [0; 0]
            [ Some (Sample.counter_out [("move", NDArray [2] [0; 0]%Z)] 0);
              Some (Sample.counter_out [("move", NDArray [2] [0; 0]%Z)] 0) ],
          Ok v)
    ∧ VecEnv.leading_dim v 2.
Proof.
  destruct (VecEnv_reset_force Sample.counter_reset (VecEnv.__init__ [5; 6]) tt
              (Sample.counter_out [("move", NDArray [2] [0; 0]%Z)] 0))
    as (v & Hv & Hdim & _); [reflexivity|solve_stackable|solve_stackable|].
  exists v. split; [exact Hv|exact Hdim].
Defined.

Lemma VecEnv_cache_length_invariant_witness :
  length (VecEnv.last_outs
            (VecEnv.step Sample.counter_step Sample.batched_action Sample.vec).1) = 2
  ∧ length (VecEnv.last_outs
              (VecEnv.reset Sample.counter_reset false tt Sample.vec).1) = 2.
Proof.
  pose proof (proj2 (VecEnv_cache_length_invariant Sample.counter_reset
                       Sample.counter_step Sample.vec [] Sample.batched_action
                       false tt) eq_refl) as H.
  cbv zeta in H. destruct H as (H1 & H2 & H3 & H4).
  split; [rewrite H2, H1|rewrite H4, H3]; reflexivity.
Defined.

Lemma VecEnv_step_short_batch_witness :
  VecEnv.step Sample.counter_step [("move", NDArray [1; 2] [1; 2]%Z)] Sample.vec
  = (Sample.vec, Raise IndexError).
Proof.
  apply (VecEnv_step_short_batch Sample.counter_step Sample.vec
           [("move", NDArray [1; 2] [1; 2]%Z)] "move" (NDArray [1; 2] [1; 2]%Z));
    [left|].
  right. exists 1, [2]. split; [reflexivity|simpl; lia].
Defined.

Lemma VecEnv_step_caches_before_stacking_witness :
  (VecEnv.step Sample.counter_step Sample.batched_action Sample.vec).1
  = VecEnv.Self [4; 2]
      [ Some (Sample.counter_out [("move", NDArray [2] [1; 2]%Z)] 4);
        Some (Sample.counter_out [("move", NDArray [2] [3; 4]%Z)] 2) ].
Proof.
  rewrite (VecEnv_step_caches_before_stacking Sample.counter_step Sample.vec
             Sample.batched_action
             [ (4, Sample.counter_out [("move", NDArray [2] [1; 2]%Z)] 4);
               (2, Sample.counter_out [("move", NDArray [2] [3; 4]%Z)] 2) ] eq_refl).
  reflexivity.
Defined.

Lemma VecEnv_step_then_reset_witness :
  (VecEnv.reset Sample.counter_reset false tt
     (VecEnv.step Sample.counter_step Sample.batched_action Sample.vec).1).1
  = VecEnv.Self [0; 2]
      [ Some (Sample.counter_out [("move", NDArray [2] [0; 0]%Z)] 0);
        Some (Sample.counter_out [("move", NDArray [2] [3; 4]%Z)] 2) ].
Proof.
  pose proof (VecEnv_step_then_reset Sample.counter_reset Sample.counter_step
                Sample.vec Sample.batched_action tt
                [ (4, Sample.counter_out [("move", NDArray [2] [1; 2]%Z)] 4);
                  (2, Sample.counter_out [("move", NDArray [2] [3; 4]%Z)] 2) ]
                eq_refl) as H.
  cbv zeta in H. destruct H as [H _]. rewrite H. reflexivity.
Defined.

Lemma DictEnv_flatten_keys_injective_witness :
  ∃ m, DictEnv._dict_env_out (1, 2, false, [("turn", 3)]) = Ok m
    ∧ dict_keys m = ["obs"; "reward"; "done"; "turn"].
Proof.
  eexists. split; [reflexivity|].
  exact (proj1 (DictEnv_flatten_keys_injective 1 2 false [("turn", 3)] _ eq_refl)).
Defined.

Lemma DictEnv_step_spec_witness :
  is_Ok (DictEnv.step (λ (a e : nat), (S e, Ok (a, 2, false, [("turn", e)]))) 7 0).2
  ∧ (DictEnv.reset (λ (_ : unit) (e : nat),
                      (0, Raise ValueError : result (nat * nat * bool * dict nat)))
       tt 5).2 = Raise ValueError.
Proof.
  split.
  - pose proof (DictEnv_step_spec
                  (λ (_ : unit) (e : nat),
                     (0, Raise ValueError : result (nat * nat * bool * dict nat)))
                  (λ (a e : nat), (S e, Ok (a, 2, false, [("turn", e)]))) 7 tt 0) as H.
    cbv zeta beta in H. destruct H as [(_ & Hok & _) _].
    apply Hok. exists 7, 2, false, [("turn", 0)]. repeat split; reflexivity.
  - pose proof (DictEnv_step_spec
                  (λ (_ : unit) (e : nat),
                     (0, Raise ValueError : result (nat * nat * bool * dict nat)))
                  (λ (a e : nat), (S e, Ok (a, 2, false, [("turn", e)]))) 7 tt 5) as H.
    cbv zeta beta in H. destruct H as [_ (_ & _ & Hex & _)].
    exact (Hex ValueError eq_refl).
Defined.

Lemma LoggingEnv_peak_stays_ones_witness :
  LoggingEnv.step (λ _ : nat, Sample.game) Sample.counter_step [] (LoggingEnv.__init__ 0)
  = (LoggingEnv.Self 1 (NDArray [2] [1; 1]%Z), Raise KeyError).
Proof.
  exact (proj1 (LoggingEnv_peak_stays_ones (λ _ : nat, Sample.game)
                  Sample.counter_reset Sample.counter_step [] tt
                  (LoggingEnv.__init__ 0) eq_refl)).
Defined.

Lemma LoggingEnv_logs_per_player_witness :
  ∃ ws, dict_get "workers" (@LoggingEnv.logs Z unit Sample.game)
        = Some (LoggingEnv.Ints ws)
    ∧ ws !! 0 = Some 1%Z.
Proof.
  pose proof (LoggingEnv_logs_per_player (A:=Z) Sample.game) as H.
  cbv zeta in H. destruct H as (_ & _ & H).
  destruct (H 0 _ eq_refl) as (ws & cs & Hws & _ & Hw & _).
  exists ws. split; [exact Hws|exact Hw].
Defined.

Lemma PadEnv_init_then_info_witness :
  ∃ s, PadEnv.__init__ id (2, 2) (3, 4) = Ok s
    ∧ ∃ m, dict_get "input_mask" (dict_set "input_mask"
                                    (nd_map num_of_bool (PadEnv.input_mask s)) [])
           = Some m
        ∧ nd_item m [0; 1; 1] = Ok 1%Z
        ∧ nd_item m [0; 1; 2] = Ok 0%Z.
Proof.
  destruct (PadEnv_init_then_info (A:=Z) id (2, 2) (3, 4))
    as (s & Hs & _ & _ & _ & Hinfo).
  exists s. split; [exact Hs|].
  destruct (Hinfo [] _ eq_refl) as (m & Hm & _ & Hitem).
  exists m. split; [exact Hm|]. split.
  - rewrite Hitem by (simpl; lia). reflexivity.
  - rewrite Hitem by (simpl; lia). reflexivity.
Defined.

Lemma PadEnv_step_obs_max_size_witness :
  ∃ out, (PadEnv.step id Sample.board_step [] Sample.small_padder).2 = Ok out
    ∧ ∃ p, dict_get "tiles" (out_obs out) = Some p ∧ shape p = [1; 1; 3; 4].
Proof.
  eexists. split; [vm_compute; reflexivity|].
  destruct (PadEnv_step_obs_max_size id Sample.board_step [] Sample.small_padder _
              eq_refl) as (act & Hact & _ & Hsizes).
  injection Hact as <-.
  exact (Hsizes "tiles" _ 1 1 eq_refl eq_refl).
Defined.
